(** * cif2cell: basic geometric classes of [utils.py]

    A shallow embedding of the classes and local functions of [utils.py]
    (Vector, LatticeVector, LatticeMatrix, AtomSite, SymmetryOperation, the
    3x3 matrix helpers and [crystal_system]) together with the properties
    that the specification states about them.

    Numbers.  The statements about all numbers are made on exact rationals
    ([Q]): Python's [==] on numbers is [Qeq] (written [==]), and the only
    irrational constant of the file, [sqrt(2.0)], is taken at the binary64
    value that [math.sqrt] returns.  Such a statement is made only where it
    holds of the code as it runs on floats: it speaks of tolerances and
    ranges, not of identities that rounding breaks, and of numbers of size
    below 2^53 where a loop takes unit steps.  The one exception is the
    inverse of a matrix, which the specification states of exact rationals;
    what binary64 makes of it is stated beside it.  What the interpreter
    computes on given floats is computed on binary64 numbers (module
    [Binary64]).

    Failure.  A Python computation either returns, raises, or loops for ever;
    [outcome] has one constructor for each.  The loops of the file whose
    number of iterations is not fixed are the [while] of
    [LatticeVector.intocell] and those of [putincell]; they are embedded
    with a fuel argument and [Diverge] is what is left when the fuel is used
    up. *)

From Stdlib Require Import ZArith QArith Qabs Qround Lia ZifyBool Lqa Ascii.
From Stdlib Require PrimFloat FloatOps SpecFloat.
From stdpp Require Import base option list strings sorting.

Local Open Scope Q_scope.

(** ** Outcomes of a computation *)

Inductive exn : Type :=
  | SymmetryError
  | PositionError
  | CellError
  | GeometryObjectError
  | SetupError
  | IndexError
  | ZeroDivisionError
  | ValueError
  | NameError
  | SyntaxError
  | TypeError.

Inductive outcome (A : Type) : Type :=
  | Return (a : A)
  | Raise (e : exn)
  | Diverge.
Arguments Return {A} a.
Arguments Raise {A} e.
Arguments Diverge {A}.

#[global] Instance outcome_ret : MRet outcome := fun _ a => Return a.
#[global] Instance outcome_bind : MBind outcome := fun _ _ f m =>
  match m with
  | Return a => f a
  | Raise e => Raise e
  | Diverge => Diverge
  end.

Definition returns {A} (m : outcome A) : Prop := exists a, m = Return a.
Definition raises {A} (m : outcome A) : Prop := exists e, m = Raise e.

(** [l[i]] for a constant, non-negative index: IndexError out of range. *)
Definition getitem {A} (l : list A) (i : nat) : outcome A :=
  match l !! i with
  | Some x => Return x
  | None => Raise IndexError
  end.

(** [l[i] = x]: IndexError out of range. *)
Definition setitem {A} (l : list A) (i : nat) (x : A) : outcome (list A) :=
  if (i <? length l)%nat then Return (<[i := x]> l) else Raise IndexError.

(** [m[i][j]] and [m[i][j] = x]. *)
Definition getitem2 {A} (m : list (list A)) (i j : nat) : outcome A :=
  r ← getitem m i; getitem r j.

Definition setitem2 {A} (m : list (list A)) (i j : nat) (x : A)
  : outcome (list (list A)) :=
  r ← getitem m i; r' ← setitem r j x; setitem m i r'.

(** ** Miscellaneous constants *)

Definition zero : Q := 0.
Definition one : Q := 1.
Definition two : Q := 2.
Definition three : Q := 3.
Definition four : Q := 4.
Definition six : Q := 6.
Definition third : Q := 1 / 3.
Definition half : Q := one / two.
Definition fourth : Q := one / four.
Definition sixth : Q := one / six.
Definition occepsilon : Q := 1 # 1000000.
(** [sqrt(2.0)] as the binary64 number 0x3FF6A09E667F3BCD. *)
Definition sqrt2 : Q := 6369051672525773 # 4503599627370496.
Definition floatlist : list Q :=
  [third; 2 * third; half; fourth; one; zero; sqrt2; sixth; 5 * sixth].

(** [GeometryObject.__init__] gives every geometrical object the same
    comparison epsilon, and nothing in the file assigns it again. *)
Definition compeps : Q := 2 # 10000.

(** ** Local functions *)

(** Return x with the sign of y *)
Definition copysign (x y : Q) : Q :=
  if Qle_bool 0 y then x else - x.

(** Guess the "true" values of some conspicuous numbers *)
Fixpoint improveprecision_in (fl : list Q) (x eps : Q) : Q :=
  match fl with
  | [] => x
  | f :: fl' =>
      if Qle_bool (Qabs (x - f)) eps then f else improveprecision_in fl' x eps
  end.

Definition improveprecision (x eps : Q) : Q := improveprecision_in floatlist x eps.

(** Determinant of 3x3 dimensional matrix *)
Definition det3 (m : list (list Q)) : outcome Q :=
  m11 ← getitem2 m 1 1; m22 ← getitem2 m 2 2;
  m12 ← getitem2 m 1 2; m21 ← getitem2 m 2 1;
  m20 ← getitem2 m 2 0; m10 ← getitem2 m 1 0;
  m00 ← getitem2 m 0 0; m01 ← getitem2 m 0 1; m02 ← getitem2 m 0 2;
  let a := m11 * m22 - m12 * m21 in
  let b := m12 * m20 - m10 * m22 in
  let c := m10 * m21 - m11 * m20 in
  Return (m00 * a + m01 * b + m02 * c).

(** Inverse of 3x3 dimensional matrix.  [1/det3(m)] raises
    ZeroDivisionError when the determinant is zero. *)
Definition minv3 (m : list (list Q)) : outcome (list (list Q)) :=
  d ← det3 m;
  if Qeq_bool d 0 then Raise ZeroDivisionError else
  let di := 1 / d in
  m00 ← getitem2 m 0 0; m01 ← getitem2 m 0 1; m02 ← getitem2 m 0 2;
  m10 ← getitem2 m 1 0; m11 ← getitem2 m 1 1; m12 ← getitem2 m 1 2;
  m20 ← getitem2 m 2 0; m21 ← getitem2 m 2 1; m22 ← getitem2 m 2 2;
  Return
    [ [ (m11 * m22 - m12 * m21) * di; (m02 * m21 - m01 * m22) * di;
        (m01 * m12 - m02 * m11) * di ];
      [ (m12 * m20 - m10 * m22) * di; (m00 * m22 - m02 * m20) * di;
        (m02 * m10 - m00 * m12) * di ];
      [ (m10 * m21 - m11 * m20) * di; (m01 * m20 - m00 * m21) * di;
        (m00 * m11 - m01 * m10) * di ] ].

(** The inner loops of the two products: [t = 0; for k: t += f k]. *)
Fixpoint accumulate (f : nat -> outcome Q) (ks : list nat) (t : Q) : outcome Q :=
  match ks with
  | [] => Return t
  | k :: ks' => x ← f k; accumulate f ks' (t + x)
  end.

(** [for i in range(3)], collecting one value per index. *)
Fixpoint collect {A} (f : nat -> outcome A) (ixs : list nat) : outcome (list A) :=
  match ixs with
  | [] => Return []
  | i :: ixs' => x ← f i; xs ← collect f ixs'; Return (x :: xs)
  end.

Definition range3 : list nat := [0; 1; 2]%nat.

(** matrix-vector multiplication: [w[i] = sum_j mat[j][i]*vec[j]] *)
Definition mvmult3 (mat : list (list Q)) (vec : list Q) : outcome (list Q) :=
  collect (fun i =>
    accumulate (fun j => a ← getitem2 mat j i; b ← getitem vec j; Return (a * b))
               range3 0) range3.

(** matrix-matrix multiplication *)
Definition mmmult3 (m1 m2 : list (list Q)) : outcome (list (list Q)) :=
  collect (fun i =>
    collect (fun j =>
      accumulate (fun k => a ← getitem2 m1 i k; b ← getitem2 m2 k j; Return (a * b))
                 range3 0) range3) range3.

Definition crystal_system (spacegroupnr : Z) : string :=
  if ((0 <? spacegroupnr) && (spacegroupnr <=? 2))%Z then "triclinic"
  else if ((2 <? spacegroupnr) && (spacegroupnr <=? 15))%Z then "monoclinic"
  else if ((15 <? spacegroupnr) && (spacegroupnr <=? 74))%Z then "orthorhombic"
  else if ((75 <? spacegroupnr) && (spacegroupnr <=? 142))%Z then "tetragonal"
  else if ((142 <? spacegroupnr) && (spacegroupnr <=? 167))%Z then "trigonal"
  else if ((167 <? spacegroupnr) && (spacegroupnr <=? 194))%Z then "hexagonal"
  else if ((194 <? spacegroupnr) && (spacegroupnr <=? 230))%Z then "cubic"
  else "unknown".

(** ** Comparisons on numbers *)

Definition Qlt_bool (x y : Q) : bool := negb (Qle_bool y x).

(** ** class Vector(list, GeometryObject)

    A Vector is a Python list of numbers: [Vector.__init__] hands its
    argument to [list.__init__] and looks at nothing.  The methods read the
    components 0, 1 and 2. *)

Definition Vector_init (vec : list Q) : outcome (list Q) := Return vec.

Section Hash.
(** Python's built-in [hash] on numbers and on strings. *)
Variable hash_num : Q -> Z.
Variable hash_str : string -> Z.

Definition Vector_hash (self : list Q) : outcome Z :=
  x ← getitem self 0; y ← getitem self 1; z ← getitem self 2;
  Return (hash_num ((11 # 10) * x + (12 # 10) * y + (13 # 10) * z)).
End Hash.

Fixpoint Vector_eq_from (ixs : list nat) (self other : list Q) : outcome bool :=
  match ixs with
  | [] => Return true
  | i :: ixs' =>
      a ← getitem self i; b ← getitem other i;
      if Qlt_bool compeps (Qabs (a - b)) then Return false
      else Vector_eq_from ixs' self other
  end.

Definition Vector_eq (self other : list Q) : outcome bool :=
  Vector_eq_from range3 self other.

Definition sqnorm (v : list Q) : outcome Q :=
  x ← getitem v 0; y ← getitem v 1; z ← getitem v 2;
  Return (x ^ 2 + y ^ 2 + z ^ 2).

Definition Vector_lt (self other : list Q) : outcome bool :=
  sl ← sqnorm self; ol ← sqnorm other; Return (Qlt_bool sl ol).

Definition Vector_add (self other : list Q) : outcome (list Q) :=
  t ← collect (fun i => a ← getitem self i; b ← getitem other i; Return (a + b)) range3;
  Vector_init t.

Definition Vector_transform (self : list Q) (matrix : list (list Q)) : outcome (list Q) :=
  w ← mvmult3 matrix self; Vector_init w.

(** [improveprecision]: each of the three components is replaced by the
    first number of [floatlist] within [compeps] of it, if there is one. *)
Fixpoint Vector_improveprecision_from (ixs : list nat) (self : list Q)
  : outcome (list Q) :=
  match ixs with
  | [] => Return self
  | i :: ixs' =>
      x ← getitem self i;
      self' ← setitem self i (improveprecision x compeps);
      Vector_improveprecision_from ixs' self'
  end.

Definition Vector_improveprecision (self : list Q) : outcome (list Q) :=
  Vector_improveprecision_from range3 self.

(** ** class LatticeVector(Vector)

    The object is its list of components together with the attribute
    [interval], itself a Python list read at the indices 0 and 1. *)

Record LatticeVector : Type := mkLatticeVector {
  coords : list Q;
  interval : list Q
}.

Definition default_interval : list Q := [0; 1].

(** [while not (interval[0] <= x < interval[1]): x -= copysign(1,x)] on one
    component; a unit of fuel for each test of the condition. *)
Fixpoint intocell_component (fuel : nat) (ival : list Q) (x : Q) : outcome Q :=
  match fuel with
  | O => Diverge
  | S fuel' =>
      lo ← getitem ival 0;
      if Qle_bool lo x then
        hi ← getitem ival 1;
        if Qlt_bool x hi then Return x
        else intocell_component fuel' ival (x - copysign 1 x)
      else intocell_component fuel' ival (x - copysign 1 x)
  end.

Fixpoint intocell_from (fuel : nat) (ixs : list nat) (ival : list Q) (v : list Q)
  : outcome (list Q) :=
  match ixs with
  | [] => Return v
  | i :: ixs' =>
      x ← getitem v i;
      x' ← intocell_component fuel ival x;
      v' ← setitem v i x';
      intocell_from fuel ixs' ival v'
  end.

(** Put the vector components into the cell interval defined by self.interval *)
Definition intocell (fuel : nat) (self : LatticeVector) : outcome LatticeVector :=
  v ← intocell_from fuel range3 (interval self) (coords self);
  Return (mkLatticeVector v (interval self)).

Definition LatticeVector_init (fuel : nat) (vec : list Q) : outcome LatticeVector :=
  v ← Vector_init vec;
  self ← intocell fuel (mkLatticeVector v default_interval);
  v' ← Vector_improveprecision (coords self);
  Return (mkLatticeVector v' (interval self)).

(** Addition of two vectors, putting the result back into the cell if
    necessary.  Neither operand is assigned to. *)
Definition LatticeVector_add (fuel : nat) (self other : LatticeVector)
  : outcome LatticeVector :=
  s0 ← getitem (interval self) 0; o0 ← getitem (interval other) 0;
  if negb (Qeq_bool s0 o0) then Raise GeometryObjectError else
  s1 ← getitem (interval self) 1; o1 ← getitem (interval other) 1;
  if negb (Qeq_bool s1 o1) then Raise GeometryObjectError else
  sum ← collect (fun i => a ← getitem (coords self) i;
                          b ← getitem (coords other) i; Return (a + b)) range3;
  t ← LatticeVector_init fuel sum;
  intocell fuel t.

(** Change interval.  The result is the object [self] as the caller sees it
    after the call: the attribute [interval] has been assigned, and the last
    statement, [self = self + t], binds the sum to the local name [self]
    only, so the sum is computed (and may raise) and then dropped. *)
Definition LatticeVector_change_interval (fuel : nat) (self : LatticeVector)
    (ival : list Q) : outcome LatticeVector :=
  let self1 := mkLatticeVector (coords self) ival in
  t ← LatticeVector_init fuel [0; 0; 0];
  let t1 := mkLatticeVector (coords t) ival in
  _ ← LatticeVector_add fuel self1 t1;
  Return self1.

(** coordinate transformation *)
Definition LatticeVector_transform (fuel : nat) (self : LatticeVector)
    (matrix : list (list Q)) : outcome LatticeVector :=
  w ← mvmult3 matrix (coords self);
  t ← LatticeVector_init fuel w;
  intocell fuel t.

(** Every component (the three the class works with) is in the declared
    interval: [interval[0] <= c < interval[1]]. *)
Definition in_interval (ival : list Q) (c : Q) : Prop :=
  exists lo hi, ival !! 0%nat = Some lo /\ ival !! 1%nat = Some hi /\ lo <= c /\ c < hi.

Definition in_cell (v : LatticeVector) : Prop :=
  exists x y z, coords v = [x; y; z] /\
    in_interval (interval v) x /\ in_interval (interval v) y /\
    in_interval (interval v) z.

(** ** class LatticeMatrix(GeometryObject, list): three by three matrix *)

Definition LatticeMatrix_init (mat : list (list Q)) : outcome (list (list Q)) :=
  mapM Vector_init mat.

Definition LatticeMatrix_transpose (self : list (list Q)) : outcome (list (list Q)) :=
  r0 ← collect (fun i => getitem2 self i 0) range3;
  r1 ← collect (fun i => getitem2 self i 1) range3;
  r2 ← collect (fun i => getitem2 self i 2) range3;
  LatticeMatrix_init [r0; r1; r2].

Definition LatticeMatrix_transform (self matrix : list (list Q))
  : outcome (list (list Q)) :=
  w ← mmmult3 matrix self; LatticeMatrix_init w.

(** ** class AtomSite(GeometryObject)

    [species] and [charges] are dictionaries from element symbols to
    numbers.  A dictionary is given by its items in the order in which it
    is iterated; the keys are distinct.  The sites considered have a
    position. *)

Record AtomSite : Type := mkAtomSite {
  position : LatticeVector;
  species : list (string * Q);
  label : string;
  charges : list (string * Q);
  index : option Z
}.

(** [d[k]] when [k] is a key of [d]. *)
Fixpoint dict_get {A} (d : list (string * A)) (k : string) : option A :=
  match d with
  | [] => None
  | (k', v) :: d' => if String.eqb k' k then Some v else dict_get d' k
  end.

(** [d1 == d2] on dictionaries: as many items, and every key of [d1] is a
    key of [d2] with an equal value; the order of the items plays no part. *)
Definition dict_eq_with {A} (eqb : A -> A -> bool) (d1 d2 : list (string * A)) : bool :=
  (length d1 =? length d2)%nat &&
  forallb (fun kv : (string * A)%type =>
             match dict_get d2 kv.1 with
             | Some v' => eqb kv.2 v'
             | None => false
             end) d1.

Definition dict_eq (d1 d2 : list (string * Q)) : bool := dict_eq_with Qeq_bool d1 d2.

(** [sorted(d.keys())], [''.join(l)] and [sum(d.values())]; the sum adds
    the values to 0 one after the other, in the order of iteration. *)
Definition sorted_keys {A} (d : list (string * A)) : list string :=
  merge_sort String.le d.*1.

Definition join (l : list string) : string := String.concat "" l.

Definition sum_values (d : list (string * Q)) : Q := foldl Qplus 0 d.*2.

Section SiteHash.
Variable hash_num : Q -> Z.
Variable hash_str : string -> Z.

(** The number that [AtomSite.__hash__] returns. *)
Definition AtomSite_hash (self : AtomSite) : outcome Z :=
  hp ← Vector_hash hash_num (coords (position self));
  Return (hp + hash_str (join (sorted_keys (species self)))
             + hash_num (sum_values (species self)))%Z.
End SiteHash.

Definition AtomSite_eq (self other : AtomSite) : outcome bool :=
  b ← Vector_eq (coords (position self)) (coords (position other));
  if b : bool then Return (dict_eq (species self) (species other)) else Return false.

(** Is there more than one species on this site? *)
Definition AtomSite_alloy (self : AtomSite) : bool :=
  bool_decide (1 < length (species self))%nat.

(** ** Strings: the methods of [str] that the parser uses *)

Definition is_sign (a : ascii) : bool :=
  match a with
  | "+" | "-" => true
  | _ => false
  end%char.

(** [s.replace(old, new)] for a pattern [old] of one character. *)
Fixpoint replace (old : ascii) (new : string) (s : string) : string :=
  match s with
  | EmptyString => EmptyString
  | String a s' =>
      if Ascii.eqb a old then new +:+ replace old new s'
      else String a (replace old new s')
  end.

(** [s.split()]: the maximal runs of characters that are not white space. *)
Fixpoint split (s : string) : list string :=
  match s with
  | EmptyString => []
  | String a s' =>
      if Ascii.is_space a then split s'
      else match s' with
           | EmptyString => [String a EmptyString]
           | String b _ =>
               if Ascii.is_space b then String a EmptyString :: split s'
               else match split s' with
                    | tok :: rest => String a tok :: rest
                    | [] => [String a EmptyString]
                    end
           end
  end.

Fixpoint mem_char (a : ascii) (chars : string) : bool :=
  match chars with
  | EmptyString => false
  | String c chars' => Ascii.eqb a c || mem_char a chars'
  end.

(** [s.strip(chars)]: drop the leading and the trailing characters that
    occur in [chars]. *)
Fixpoint lstrip (chars : string) (s : string) : string :=
  match s with
  | EmptyString => EmptyString
  | String a s' => if mem_char a chars then lstrip chars s' else s
  end.

Fixpoint rstrip (chars : string) (s : string) : string :=
  match s with
  | EmptyString => EmptyString
  | String a s' =>
      match rstrip chars s' with
      | EmptyString => if mem_char a chars then EmptyString else String a EmptyString
      | r => String a r
      end
  end.

Definition strip (chars : string) (s : string) : string :=
  rstrip chars (lstrip chars s).

(** The signed terms of one expression:
    [s.replace('+',' +').replace('-',' -').split()]. *)
Definition tokens (s : string) : list string :=
  split (replace "-" " -" (replace "+" " +" s)).

Fixpoint digits_value (s : string) (acc : Z) : option Z :=
  match s with
  | EmptyString => Some acc
  | String a s' =>
      match Ascii.is_nat a with
      | Some d => digits_value s' (10 * acc + Z.of_nat d)%Z
      | None => None
      end
  end.

(** [float(s)] on the strings the parser builds: an optional sign and a
    non-empty run of decimal digits.  Everything else is answered with
    ValueError; the parser only ever passes "1", "+1" and "-1"
    (see [rotmat_token_ok]). *)
Definition py_float (s : string) : outcome Q :=
  let '(sgn, body) :=
    match s with
    | String "+" r => (1%Z, r)
    | String "-" r => ((-1)%Z, r)
    | _ => (1%Z, s)
    end in
  match body with
  | EmptyString => Raise ValueError
  | _ => match digits_value body 0 with
         | Some n => Return (inject_Z (sgn * n))
         | None => Raise ValueError
         end
  end.

(** ** class SymmetryOperation(GeometryObject)

    The operations considered are the resolved ones: built from an
    equivalent-site expression, or given a rotation and a translation. *)

Record SymmetryOperation : Type := mkSymmetryOperation {
  eqsite : list string;
  rotation : list (list Q);
  translation : LatticeVector
}.

(** [b1 and b2], the second operand evaluated only when the first is true. *)
Definition and_then (m k : outcome bool) : outcome bool :=
  b ← m; if b : bool then k else Return false.

Fixpoint SymmetryOperation_eq_row (self other : SymmetryOperation) (i : nat)
    (js : list nat) (eq : bool) : outcome bool :=
  match js with
  | [] => Return eq
  | j :: js' =>
      eq' ← and_then (Return eq)
             (a ← getitem2 (rotation self) i j; b ← getitem2 (rotation other) i j;
              Return (Qlt_bool (Qabs (a - b)) compeps));
      SymmetryOperation_eq_row self other i js' eq'
  end.

Fixpoint SymmetryOperation_eq_rows (self other : SymmetryOperation)
    (ixs : list nat) (eq : bool) : outcome bool :=
  match ixs with
  | [] => Return eq
  | i :: ixs' =>
      eq1 ← SymmetryOperation_eq_row self other i range3 eq;
      eq2 ← and_then (Return eq1)
              (Vector_eq (coords (translation self)) (coords (translation other)));
      SymmetryOperation_eq_rows self other ixs' eq2
  end.

(** Two symmetry operations are equal if rotation matrices and translation
    vector differ by at most compeps *)
Definition SymmetryOperation_eq (self other : SymmetryOperation) : outcome bool :=
  SymmetryOperation_eq_rows self other range3 true.

Definition small_entry (self : SymmetryOperation) (i j : nat) : outcome bool :=
  a ← getitem2 (rotation self) i j; Return (Qlt_bool (Qabs a) compeps).

(** True if the operation is diagonal *)
Definition diagonal (self : SymmetryOperation) : outcome bool :=
  and_then (small_entry self 0 1)
 (and_then (small_entry self 0 2)
 (and_then (small_entry self 1 0)
 (and_then (small_entry self 1 2)
 (and_then (small_entry self 2 0)
           (small_entry self 2 1))))).

(** [r00 == r11 == r22 == 1], a chained comparison. *)
Definition unit_diagonal (self : SymmetryOperation) : outcome bool :=
  r00 ← getitem2 (rotation self) 0 0; r11 ← getitem2 (rotation self) 1 1;
  if Qeq_bool r00 r11 then
    r22 ← getitem2 (rotation self) 2 2;
    if Qeq_bool r11 r22 then Return (Qeq_bool r22 1) else Return false
  else Return false.

(** Comparison between operations made by comparing lengths of translation
    vectors, whether the rotation is diagonal and the identity is always
    less than anything else. *)
Definition SymmetryOperation_lt (self other : SymmetryOperation) : outcome bool :=
  b1 ← Vector_lt (coords (translation self)) (coords (translation other));
  if b1 : bool then Return true else
  b2 ← Vector_lt (coords (translation other)) (coords (translation self));
  if b2 : bool then Return false else
  d ← diagonal self;
  if d : bool then
    d' ← diagonal other;
    if negb d' then Return true else
    u ← unit_diagonal self;
    if u : bool then Return true else Return false
  else Return false.

(** The body of the inner loop of [rotmat] for one token [i] of entry [j]. *)
Definition rotmat_token (j : nat) (i : string) (mat : list (list Q))
  : outcome (list (list Q)) :=
  if String.eqb (strip "+-" i) "x" then
    v ← py_float (strip "x" i +:+ "1"); setitem2 mat 0 j v
  else if String.eqb (strip "+-" i) "y" then
    v ← py_float (strip "y" i +:+ "1"); setitem2 mat 1 j v
  else if String.eqb (strip "+-" i) "z" then
    v ← py_float (strip "z" i +:+ "1"); setitem2 mat 2 j v
  else Return mat.

Fixpoint rotmat_tokens (j : nat) (xyz : list string) (mat : list (list Q))
  : outcome (list (list Q)) :=
  match xyz with
  | [] => Return mat
  | i :: xyz' => mat' ← rotmat_token j i mat; rotmat_tokens j xyz' mat'
  end.

Fixpoint rotmat_entries (j : nat) (entries : list string) (mat : list (list Q))
  : outcome (list (list Q)) :=
  match entries with
  | [] => Return mat
  | e :: entries' =>
      mat' ← rotmat_tokens j (tokens e) mat; rotmat_entries (S j) entries' mat'
  end.

(** Return a rotation matrix from "x,y,z" representation of a symmetry operation *)
Definition rotmat (eqsite : list string) : outcome (list (list Q)) :=
  mat ← rotmat_entries 0 eqsite [[0; 0; 0]; [0; 0; 0]; [0; 0; 0]];
  LatticeMatrix_init mat.

(** *** What [eval] returns

    [eval] may return any object.  For the parser an object is either a
    real number (an int, a float, a bool), or not one (a string, a complex
    number, None, a list, ...); with the latter the comparisons or the
    subtraction of [intocell] raise TypeError. *)

Inductive value : Type :=
  | Num (q : Q)
  | NotNum.

Definition number (v : value) : outcome Q :=
  match v with
  | Num q => Return q
  | NotNum => Raise TypeError
  end.

(** [intocell] with the interval [0,1) on a list of values: the components
    0, 1 and 2 are read and folded in turn. *)
Fixpoint intocell_values (fuel : nat) (ixs : list nat) (v : list value)
  : outcome (list value) :=
  match ixs with
  | [] => Return v
  | i :: ixs' =>
      x ← getitem v i;
      q ← number x;
      q' ← intocell_component fuel default_interval q;
      v' ← setitem v i (Num q');
      intocell_values fuel ixs' v'
  end.

Fixpoint numbers (v : list value) : outcome (list Q) :=
  match v with
  | [] => Return []
  | x :: v' => q ← number x; qs ← numbers v'; Return (q :: qs)
  end.

(** [LatticeVector(vec)] on a list of values.  A LatticeVector is a list of
    numbers here: a list that holds an object that is not a number beyond
    its third component, which the constructor would leave alone, is
    answered with TypeError. *)
Definition LatticeVector_init_values (fuel : nat) (vec : list value)
  : outcome LatticeVector :=
  v ← intocell_values fuel range3 vec;
  qs ← numbers v;
  v' ← Vector_improveprecision qs;
  Return (mkLatticeVector v' default_interval).

Section Eval.
(** Python's built-in [eval], on the tokens the parser passes to it.  The
    expression is evaluated in the scope of [transvec]: it may raise, it
    may return any object, and it may change the list [vec] that is being
    filled (as the expression [vec.pop()] does).  [eval i vec] is the
    outcome of evaluating [i] when the list is [vec]: the object returned,
    and the list afterwards.  What an expression does to other objects of
    the method is not followed. *)
Variable eval : string -> list value -> outcome (value * list value).

Definition transvec_token (j : nat) (i : string) (vec : list value)
  : outcome (list value) :=
  if negb (String.eqb (strip "+-xyz" i) "") then
    r ← eval i vec; setitem r.2 j r.1
  else Return vec.

Fixpoint transvec_tokens (j : nat) (xyz : list string) (vec : list value)
  : outcome (list value) :=
  match xyz with
  | [] => Return vec
  | i :: xyz' => vec' ← transvec_token j i vec; transvec_tokens j xyz' vec'
  end.

Fixpoint transvec_entries (j : nat) (entries : list string) (vec : list value)
  : outcome (list value) :=
  match entries with
  | [] => Return vec
  | e :: entries' =>
      vec' ← transvec_tokens j (tokens e) vec;
      transvec_entries (S j) entries' vec'
  end.

(** Return a translation vector from "x,y,z" representation of a symmetry
    operation *)
Definition transvec (fuel : nat) (eqsite : list string) : outcome LatticeVector :=
  vec ← transvec_entries 0 eqsite [Num 0; Num 0; Num 0];
  LatticeVector_init_values fuel vec.

Definition SymmetryOperation_init (fuel : nat) (eqsite : list string)
  : outcome SymmetryOperation :=
  rot ← rotmat eqsite;
  tv ← transvec fuel eqsite;
  t ← LatticeVector_init fuel (coords tv);
  Return (mkSymmetryOperation eqsite rot t).
End Eval.

(** An expression without effect on the objects of the method: its outcome
    is that of a function of the expression alone. *)
Definition lift (ev : string -> outcome value)
  : string -> list value -> outcome (value * list value) :=
  fun s vec => v ← ev s; Return (v, vec).

(** ** The interpreter's built-ins, for closed instances

    [hash] and [eval] belong to the Python interpreter, not to the module;
    the definitions above take them as arguments and the general results
    hold for every choice.  Where an instance has to be evaluated, the
    following concrete functions are used: CPython 3's hash of a number
    (the value reduced modulo the prime [2^61 - 1], as the language
    reference lays down for all numeric types), and an evaluator for the
    expressions described at [eval_literal]. *)

Module Builtins.

Definition hash_modulus : Z := 2 ^ 61 - 1.
Definition hash_inf : Z := 314159.

Fixpoint powmod (b : Z) (e : positive) (m : Z) : Z :=
  match e with
  | xH => b mod m
  | xO e' => let r := powmod b e' m in (r * r) mod m
  | xI e' => let r := powmod b e' m in (r * r * b) mod m
  end%Z.

Definition py_hash_num (q : Q) : Z :=
  let r := Qred q in
  let m := Z.abs (Qnum r) in
  let n := Zpos (Qden r) in
  let h := if (n mod hash_modulus =? 0)%Z then hash_inf
           else ((m mod hash_modulus)
                 * powmod n (Z.to_pos (hash_modulus - 2)) hash_modulus
                 mod hash_modulus)%Z in
  let h := if (Qnum r <? 0)%Z then (- h)%Z else h in
  if (h =? -1)%Z then (-2)%Z else h.

(** The part of [s] before and after the first [c]. *)
Fixpoint cut (c : ascii) (s : string) : option (string * string) :=
  match s with
  | EmptyString => None
  | String a s' =>
      if Ascii.eqb a c then Some (EmptyString, s')
      else match cut c s' with
           | Some (l, r) => Some (String a l, r)
           | None => None
           end
  end.

(** [digits] or [digits.digits], one of the two runs possibly empty; a
    whole number of more than one digit does not begin with 0 (that would
    be an octal number, or none). *)
Definition number_value (s : string) : option Q :=
  match cut "." s with
  | None =>
      match s with
      | EmptyString => None
      | String "0" (String _ _) => None
      | _ => inject_Z <$> digits_value s 0
      end
  | Some (ip, fp) =>
      match ip, fp with
      | EmptyString, EmptyString => None
      | _, _ =>
          match digits_value ip 0, digits_value fp 0 with
          | Some a, Some b =>
              Some (inject_Z a + inject_Z b / inject_Z (10 ^ Z.of_nat (String.length fp)))
          | _, _ => None
          end
      end
  end.

Definition is_letter (a : ascii) : bool :=
  let n := N_of_ascii a in
  ((65 <=? n) && (n <=? 90) || (97 <=? n) && (n <=? 122) || (n =? 95))%N.

Fixpoint is_name_tail (s : string) : bool :=
  match s with
  | EmptyString => true
  | String a s' => (is_letter a || bool_decide (is_Some (Ascii.is_nat a)))
                   && is_name_tail s'
  end.

Definition is_name (s : string) : bool :=
  match s with
  | EmptyString => false
  | String a s' => is_letter a && is_name_tail s'
  end.

(** The names that the module binds to numbers after its imports, and
    names of the module and of the method that are bound to strings and
    lists. *)
Definition number_names : list (string * Q) :=
  [("zero", zero); ("one", one); ("two", two); ("three", three);
   ("four", four); ("six", six); ("third", third); ("half", half);
   ("fourth", fourth); ("sixth", sixth); ("occepsilon", occepsilon)]%string.

Definition other_names : list string := ["i"; "xyz"; "vec"; "floatlist"]%string.

(** An imaginary literal: a decimal number followed by one [j]. *)
Definition is_imaginary (s : string) : bool :=
  match rstrip "jJ" s with
  | EmptyString => false
  | r => (String.length s =? S (String.length r))%nat
         && bool_decide (is_Some (number_value r))
  end.

(** [eval(s)], with true division (the module imports it from
    [__future__]), on the expressions of the following forms: under an
    optional sign, a decimal literal, an imaginary literal, one of the
    names above, or a quotient of two decimal literals.  The sign of a
    string or of a list is a TypeError.  Outside these forms the answer is
    not claimed to be that of Python: another name is taken as not bound
    (NameError; [j], and the names that [elementdata] exports, are bound
    as well), and every other string is answered with SyntaxError. *)
Definition eval_literal (s : string) : outcome value :=
  let '(sgn, body) :=
    match s with
    | String "+" r => (1, r)
    | String "-" r => (- (1), r)
    | _ => (1, s)
    end in
  match cut "/" body with
  | None =>
      match number_value body with
      | Some q => Return (Num (sgn * q))
      | None =>
          if is_imaginary body then Return NotNum
          else match dict_get number_names body with
               | Some q => Return (Num (sgn * q))
               | None =>
                   if bool_decide (body ∈ other_names) then
                     if String.eqb body s then Return NotNum else Raise TypeError
                   else if is_name body then Raise NameError
                   else Raise SyntaxError
               end
      end
  | Some (n, d) =>
      match number_value n, number_value d with
      | Some a, Some b =>
          if Qeq_bool b 0 then Raise ZeroDivisionError
          else Return (Num (sgn * a / b))
      | _, _ => if is_name body then Raise NameError else Raise SyntaxError
      end
  end.

End Builtins.

Import Builtins.

(** * The same code on binary64 numbers

    The statements about all numbers are made on exact rationals, and say
    what holds of the code whatever the rounding.  What the interpreter
    computes on given floats is computed here with the binary64 numbers
    of the kernel ([PrimFloat]: IEEE 754 with rounding to nearest even, as
    Python's [float]); a decimal literal denotes the nearest binary64
    number, as it does in Python. *)

Module Binary64.
Import PrimFloat.
Local Open Scope float_scope.
#[local] Set Warnings "-inexact-float".

Definition compeps : float := 0.0002.

Section Hash.
Variable hash_num : float -> Z.
Variable hash_str : string -> Z.

Definition Vector_hash (self : list float) : outcome Z :=
  x ← getitem self 0; y ← getitem self 1; z ← getitem self 2;
  Return (hash_num (1.1 * x + 1.2 * y + 1.3 * z)).
End Hash.

Fixpoint Vector_eq_from (ixs : list nat) (self other : list float) : outcome bool :=
  match ixs with
  | [] => Return true
  | i :: ixs' =>
      a ← getitem self i; b ← getitem other i;
      if compeps <? abs (a - b) then Return false
      else Vector_eq_from ixs' self other
  end.

Definition Vector_eq (self other : list float) : outcome bool :=
  Vector_eq_from range3 self other.

(** An AtomSite: the components of its position and its species. *)
Record AtomSite : Type := mkAtomSite {
  position : list float;
  species : list (string * float)
}.

Definition dict_eq (d1 d2 : list (string * float)) : bool := dict_eq_with eqb d1 d2.

(** [sum] begins with the integer 0, which the first addition turns into
    the float 0.0. *)
Definition sum_values (d : list (string * float)) : float := foldl add 0 d.*2.

Section SiteHash.
Variable hash_num : float -> Z.
Variable hash_str : string -> Z.

Definition AtomSite_hash (self : AtomSite) : outcome Z :=
  hp ← Vector_hash hash_num (position self);
  Return (hp + hash_str (join (sorted_keys (species self)))
             + hash_num (sum_values (species self)))%Z.
End SiteHash.

Definition AtomSite_eq (self other : AtomSite) : outcome bool :=
  b ← Vector_eq (position self) (position other);
  if b : bool then Return (dict_eq (species self) (species other)) else Return false.

(** Determinant of 3x3 dimensional matrix *)
Definition det3 (m : list (list float)) : outcome float :=
  m11 ← getitem2 m 1 1; m22 ← getitem2 m 2 2;
  m12 ← getitem2 m 1 2; m21 ← getitem2 m 2 1;
  m20 ← getitem2 m 2 0; m10 ← getitem2 m 1 0;
  m00 ← getitem2 m 0 0; m01 ← getitem2 m 0 1; m02 ← getitem2 m 0 2;
  let a := m11 * m22 - m12 * m21 in
  let b := m12 * m20 - m10 * m22 in
  let c := m10 * m21 - m11 * m20 in
  Return (m00 * a + m01 * b + m02 * c).

(** Inverse of 3x3 dimensional matrix.  [1/det3(m)] raises
    ZeroDivisionError when the determinant is 0.0 or -0.0. *)
Definition minv3 (m : list (list float)) : outcome (list (list float)) :=
  d ← det3 m;
  if d =? 0 then Raise ZeroDivisionError else
  let di := 1 / d in
  m00 ← getitem2 m 0 0; m01 ← getitem2 m 0 1; m02 ← getitem2 m 0 2;
  m10 ← getitem2 m 1 0; m11 ← getitem2 m 1 1; m12 ← getitem2 m 1 2;
  m20 ← getitem2 m 2 0; m21 ← getitem2 m 2 1; m22 ← getitem2 m 2 2;
  Return
    [ [ (m11 * m22 - m12 * m21) * di; (m02 * m21 - m01 * m22) * di;
        (m01 * m12 - m02 * m11) * di ];
      [ (m12 * m20 - m10 * m22) * di; (m00 * m22 - m02 * m20) * di;
        (m02 * m10 - m00 * m12) * di ];
      [ (m10 * m21 - m11 * m20) * di; (m01 * m20 - m00 * m21) * di;
        (m00 * m11 - m01 * m10) * di ] ].

(** [t = 0; for k: t += f k]: the first addition turns the integer 0 into
    the float 0.0. *)
Fixpoint accumulate (f : nat -> outcome float) (ks : list nat) (t : float)
  : outcome float :=
  match ks with
  | [] => Return t
  | k :: ks' => x ← f k; accumulate f ks' (t + x)
  end.

(** matrix-matrix multiplication *)
Definition mmmult3 (m1 m2 : list (list float)) : outcome (list (list float)) :=
  collect (fun i =>
    collect (fun j =>
      accumulate (fun k => a ← getitem2 m1 i k; b ← getitem2 m2 k j; Return (a * b))
                 range3 0) range3) range3.

(** *** [hash] of a float

    The rational that a finite binary64 number is. *)
Definition float_value (f : float) : option Q :=
  match FloatOps.Prim2SF f with
  | SpecFloat.S754_zero _ => Some 0%Q
  | SpecFloat.S754_finite s m e =>
      Some (inject_Z (if s then Z.neg m else Z.pos m) * 2 ^ e)%Q
  | _ => None
  end.

(** CPython 3 (before 3.10 for nan): the hash of a float is the hash of the
    rational that it is. *)
Definition py3_hash_float (f : float) : Z :=
  match FloatOps.Prim2SF f with
  | SpecFloat.S754_infinity s => (if s then - hash_inf else hash_inf)%Z
  | SpecFloat.S754_nan => 0%Z
  | _ => match float_value f with Some q => py_hash_num q | None => 0%Z end
  end.

(** CPython 2.7 with a 64-bit [long] ([_Py_HashDouble]): a float without
    fractional part hashes as the integer it is (taken here as far as the
    integer is its own hash, that is below 2^62 in size); otherwise
    [frexp] gives a mantissa in [1/2, 1) and an exponent, and the hash is
    the sum of the first 31 bits of the mantissa, the next 31 bits, and
    the exponent shifted left by 15. *)
Definition py2_hash_float (f : float) : Z :=
  match FloatOps.Prim2SF f with
  | SpecFloat.S754_zero _ => 0%Z
  | SpecFloat.S754_infinity s => (if s then -271828 else 314159)%Z
  | SpecFloat.S754_nan => 0%Z
  | SpecFloat.S754_finite s m e =>
      let M := Z.pos m in
      let sgn := (if s then -1 else 1)%Z in
      let x :=
        if ((0 <=? e) || (M mod 2 ^ (- e) =? 0))%Z then
          (sgn * (if (0 <=? e)%Z then M * 2 ^ e else M / 2 ^ (- e)))%Z
        else
          let L := (Z.log2 M + 1)%Z in
          let expo := (e + L)%Z in
          let hipart := (if L <=? 31 then M * 2 ^ (31 - L)
                         else M / 2 ^ (L - 31))%Z in
          let rest := (if L <=? 31 then 0
                       else (M mod 2 ^ (L - 31)) * 2 ^ 31 / 2 ^ (L - 31))%Z in
          (sgn * (hipart + rest) + expo * 2 ^ 15)%Z in
      if (x =? -1)%Z then (-2)%Z else x
  end.

(** Every component of [p] differs from that of [q] by less than
    [compeps]. *)
Definition close (p q : list float) : bool :=
  forallb (fun ab : float * float => abs (ab.1 - ab.2) <? compeps) (zip p q).

(** Two iron sites, half the tolerance apart. *)
Definition site_a : AtomSite := mkAtomSite [0.1; 0; 0] [("Fe"%string, 1)].
Definition site_b : AtomSite := mkAtomSite [0.1001; 0; 0] [("Fe"%string, 1)].

(** The matrix with the entries 0.1, 0.2, ..., 0.9: singular as a matrix of
    decimal fractions, not as a matrix of binary64 numbers. *)
Definition tenths : list (list float) :=
  [[0.1; 0.2; 0.3]; [0.4; 0.5; 0.6]; [0.7; 0.8; 0.9]].

(** Its determinant as [det3] computes it, and the product of its inverse
    as [minv3] computes it with the matrix. *)
Definition tenths_det : float := 1.7347234759768071e-17.

Definition tenths_product : list (list float) :=
  [[-0.25; -0.5; -0.75]; [0; 0; 0]; [-0.25; -0.5; -0.5]].

Definition identity3 : list (list float) := [[1; 0; 0]; [0; 1; 0]; [0; 0; 1]].

(** Some entry of [p] differs from that entry of [q] by more than [tol]. *)
Definition differ_by_more_than (tol : float) (p q : list (list float)) : bool :=
  existsb (fun rs : list float * list float =>
             existsb (fun ab : float * float => tol <? abs (ab.1 - ab.2))
                     (zip rs.1 rs.2))
          (zip p q).

End Binary64.

(** * Notions used in the statements *)

(** ** Folding into the unit cell *)

(** The number of unit steps that bring [x] into [[0,1)]; the loop of
    [intocell] tests its condition once more than that. *)
Definition steps (x : Q) : nat := Z.to_nat (Z.abs (Qfloor x)).

(** The size below which binary64 takes a step of one unit without
    stalling. *)
Definition unit_steps (x : Q) : Prop := Qabs x < inject_Z (2 ^ 53).

(** [y] is [x] folded into [[0,1)]. *)
Definition folded (x y : Q) : Prop :=
  0 <= y /\ y < 1 /\ y == x - inject_Z (Qfloor x).

Definition unit_closed (y : Q) : Prop := 0 <= y /\ y <= 1.
Definition unit_half_open (y : Q) : Prop := 0 <= y /\ y < 1.

(** Fuel that suffices to construct a LatticeVector from [v] and to fold it
    once more. *)
Definition fuel_bound (v : list Q) : nat :=
  S (S (foldr Nat.max 0%nat (steps <$> v))).

(** The test of [LatticeVector.__add__] on two intervals. *)
Definition same_interval (alo ahi blo bhi : Q) : Prop := alo == blo /\ ahi == bhi.

Definition half_interval : list Q := [- (1 # 2); 1 # 2].

(** ** Matrices *)

Definition mat_eq (a b : list (list Q)) : Prop := Forall2 (Forall2 Qeq) a b.

Definition identity3 : list (list Q) := [[1; 0; 0]; [0; 1; 0]; [0; 0; 1]].

Definition shape33 (mat : list (list Q)) : Prop :=
  exists a b c d e f g h i : Q, mat = [[a; b; c]; [d; e; f]; [g; h; i]].

(** ** Sites *)

(** Two iron sites, half the tolerance apart. *)
Definition site_a : AtomSite :=
  mkAtomSite (mkLatticeVector [1 # 10; 0; 0] default_interval)
             [("Fe"%string, 1)] "" [] None.

Definition site_b : AtomSite :=
  mkAtomSite (mkLatticeVector [1001 # 10000; 0; 0] default_interval)
             [("Fe"%string, 1)] "" [] None.

(** Two dictionaries with the same keys and equal values in the same order
    of iteration. *)
Definition same_items (d1 d2 : list (string * Q)) : Prop :=
  Forall2 (fun a b : (string * Q)%type => a.1 = b.1 /\ a.2 == b.2) d1 d2.

(** ** Symmetry operations *)

(** The operation that "x,y,z" stands for, and the mirror "-x,y,z". *)
Definition identity_op : SymmetryOperation :=
  mkSymmetryOperation ["x"; "y"; "z"]%string identity3
    (mkLatticeVector [0; 0; 0] default_interval).

Definition mirror_op : SymmetryOperation :=
  mkSymmetryOperation ["-x"; "y"; "z"]%string [[- (1); 0; 0]; [0; 1; 0]; [0; 0; 1]]
    (mkLatticeVector [0; 0; 0] default_interval).

(** A list is in the order of [<] when no element is less than one that
    comes before it. *)
Definition sorted_by_lt (l : list SymmetryOperation) : Prop :=
  forall (i j : nat) (a b : SymmetryOperation),
    (i < j)%nat -> l !! i = Some a -> l !! j = Some b ->
    SymmetryOperation_lt b a = Return false.

(** ** Tokens *)

Fixpoint sign_free (s : string) : Prop :=
  match s with
  | EmptyString => True
  | String a s' => is_sign a = false /\ sign_free s'
  end.

(** A token as [tokens] produces them: not empty, and with no sign after
    its first character. *)
Definition token_ok (t : string) : Prop :=
  match t with
  | EmptyString => False
  | String _ r => sign_free r
  end.

(** Every occurrence of [c] in [s] comes right after a blank; [p] tells
    whether a blank precedes [s] itself. *)
Fixpoint guarded (c : ascii) (p : bool) (s : string) : Prop :=
  match s with
  | EmptyString => True
  | String a s' => (a = c -> p = true) /\ guarded c (Ascii.is_space a) s'
  end.

Definition spaced_signs (s : string) : string :=
  replace "-" " -" (replace "+" " +" s).

(** The two kinds of term of the grammar of equivalent-site expressions: a
    signed coordinate variable, and a signed numeric literal (a decimal
    number or a quotient of two). *)
Definition is_signed_variable (tok : string) : bool :=
  bool_decide (tok ∈ ["x"; "y"; "z"; "+x"; "+y"; "+z"; "-x"; "-y"; "-z"]%string).

Definition is_signed_literal (tok : string) : bool :=
  let body := match tok with
              | String a r => if is_sign a then r else tok
              | EmptyString => tok
              end in
  match cut "/" body with
  | None => bool_decide (is_Some (number_value body))
  | Some (n, d) => bool_decide (is_Some (number_value n))
                   && bool_decide (is_Some (number_value d))
  end.

(** The tokens handed to [eval]: those with a character other than
    [+ - x y z]. *)
Definition evaluated (tok : string) : bool :=
  negb (String.eqb (strip "+-xyz" tok) "").

Definition all_tokens (eqsite : list string) : list string :=
  concat (tokens <$> eqsite).

Definition evaluated_tokens (eqsite : list string) : list string :=
  List.filter evaluated (all_tokens eqsite).

(** Evaluating tokens one after the other, stopping at the first failure. *)
Fixpoint eval_in_order (ev : string -> outcome value) (toks : list string)
  : outcome unit :=
  match toks with
  | [] => Return tt
  | t :: toks' => _ ← ev t; eval_in_order ev toks'
  end.

(** What the loops of [transvec] leave in the list when every evaluation
    returns: the component [j] holds the value of the last token of the
    entry [j] that is evaluated, and 0 when there is none. *)
Fixpoint store_tokens (ev : string -> outcome value) (j : nat)
    (xyz : list string) (vec : list value) : list value :=
  match xyz with
  | [] => vec
  | t :: xyz' =>
      store_tokens ev j xyz'
        (if evaluated t then
           match ev t with
           | Return v => <[j := v]> vec
           | _ => vec
           end
         else vec)
  end.

Fixpoint store_entries (ev : string -> outcome value) (j : nat)
    (entries : list string) (vec : list value) : list value :=
  match entries with
  | [] => vec
  | e :: entries' => store_entries ev (S j) entries' (store_tokens ev j (tokens e) vec)
  end.

Definition stored (ev : string -> outcome value) (eqsite : list string)
  : list value :=
  store_entries ev 0 eqsite [Num 0; Num 0; Num 0].

(** The outcome [m] of a run of the loops of [transvec], given the outcome
    [r] of the evaluations that it makes and the list [vec'] that they
    leave. *)
Definition follows (r : outcome unit) (m : outcome (list value))
    (vec' : list value) : Prop :=
  match r with
  | Return _ => m = Return vec'
  | Raise e => m = Raise e
  | Diverge => m = Diverge
  end.

(** Fuel that suffices to construct a LatticeVector from [vec] and to fold
    it once more. *)
Definition value_steps (v : value) : nat :=
  match v with
  | Num q => steps q
  | NotNum => 0
  end.

Definition fuel_for (vec : list value) : nat :=
  S (S (foldr Nat.max 0%nat (value_steps <$> vec))).

(** A real number of a size at which binary64 takes unit steps. *)
Definition real_number (v : value) : Prop := exists q, v = Num q /\ unit_steps q.

(** * The rest of the module *)

(** ** class Charge(float) *)

(** [int(x)]: the integer part, towards zero. *)
Definition py_int (x : Q) : Z := Z.quot (Qnum x) (Zpos (Qden x)).

Section ChargeStr.
(** Python's [str] on an integer and on a float. *)
Variable str_int : Z -> string.
Variable str_float : Q -> string.

(** [Charge.__str__].  The three-way [if] of the integral case has no
    [else]: falling through it would return [None], which [str] answers
    with TypeError. *)
Definition Charge_str (self : Q) : outcome string :=
  if Qlt_bool (Qabs (self - inject_Z (py_int self))) (1 # 10000) then
    if (py_int self =? 0)%Z then Return "0"%string
    else if Qlt_bool 0 self then Return (str_int (Z.abs (py_int self)) +:+ "+")
    else if Qlt_bool self 0 then Return (str_int (Z.abs (py_int self)) +:+ "-")
    else Raise TypeError
  else
    if Qlt_bool 0 self then Return (str_float (Qabs self) +:+ "+")
    else Return (str_float (Qabs self) +:+ "-").
End ChargeStr.

(** ** More methods of LatticeMatrix *)

(** [LatticeMatrix.__eq__]: False at the first entry that differs by more
    than [compeps]. *)
Fixpoint LatticeMatrix_eq_row (self other : list (list Q)) (i : nat)
    (js : list nat) : outcome bool :=
  match js with
  | [] => Return true
  | j :: js' =>
      a ← getitem2 self i j; b ← getitem2 other i j;
      if Qlt_bool compeps (Qabs (a - b)) then Return false
      else LatticeMatrix_eq_row self other i js'
  end.

Fixpoint LatticeMatrix_eq_rows (self other : list (list Q)) (ixs : list nat)
  : outcome bool :=
  match ixs with
  | [] => Return true
  | i :: ixs' =>
      b ← LatticeMatrix_eq_row self other i range3;
      if b : bool then LatticeMatrix_eq_rows self other ixs' else Return false
  end.

Definition LatticeMatrix_eq (self other : list (list Q)) : outcome bool :=
  LatticeMatrix_eq_rows self other range3.

(** ** More local functions *)

(** [s.split(sep)] for a separator of one character. *)
Fixpoint split_on (sep : ascii) (s : string) : list string :=
  match s with
  | EmptyString => [EmptyString]
  | String a s' =>
      if Ascii.eqb a sep then EmptyString :: split_on sep s'
      else match split_on sep s' with
           | h :: t => String a h :: t
           | [] => [String a EmptyString]
           end
  end.

(** Remove error estimates at the end of a number (as in 3.28(5)) *)
Definition removeerror (s : string) : outcome string :=
  getitem (split_on "(" s) 0.


(** The two loops of [putincell] on one coordinate, a unit of fuel for each
    test of a condition. *)
Fixpoint putincell_raise (fuel : nat) (x : Q) : outcome Q :=
  match fuel with
  | O => Diverge
  | S fuel' => if Qlt_bool x 0 then putincell_raise fuel' (x + 1) else Return x
  end.

Fixpoint putincell_lower (fuel : nat) (coordepsilon x : Q) : outcome Q :=
  match fuel with
  | O => Diverge
  | S fuel' =>
      if Qlt_bool (1 - coordepsilon) x then putincell_lower fuel' coordepsilon (x - 1)
      else Return x
  end.

Fixpoint putincell_from (fuel : nat) (ixs : list nat) (coords : list Q)
    (coordepsilon : Q) : outcome (list Q) :=
  match ixs with
  | [] => Return coords
  | i :: ixs' =>
      x ← getitem coords i;
      x1 ← putincell_raise fuel x;
      x2 ← putincell_lower fuel coordepsilon x1;
      coords' ← setitem coords i x2;
      putincell_from fuel ixs' coords' coordepsilon
  end.

(** [putincell] works in place; the result is the list after the call. *)
Definition putincell (fuel : nat) (coords : list Q) (coordepsilon : Q)
  : outcome (list Q) :=
  putincell_from fuel range3 coords coordepsilon.

(** * Notions used in the further statements *)

Definition vec_eq (a b : list Q) : Prop := Forall2 Qeq a b.

(** [y] is [x] moved by a whole number of cells. *)
Definition congruent (x y : Q) : Prop := exists k : Z, y == x + inject_Z k.

(** The number of changes that bring [x] into [[-1/2,1/2)]. *)
Definition steps_half (x : Q) : nat := Z.to_nat (Z.abs (Qfloor (x + (1 # 2)))).

(** Fuel for the two loops of [putincell] on the coordinate [x]. *)
Definition lower_steps (eps x : Q) : nat := Z.to_nat (Qceiling (x - (1 - eps))).

Definition putincell_fuel (eps x : Q) : nat :=
  S (Nat.max (steps x) (lower_steps eps (if Qle_bool 1 x then x else 1))).

(** What [putincell] makes of a coordinate [x]: the range it is left in,
    and that it is left alone when it was in [[0, 1 - eps]]. *)
Definition put_in_cell (eps x y : Q) : Prop :=
  y <= 1 - eps /\ (0 <= y \/ - eps < y) /\ (0 <= x -> x <= 1 - eps -> y = x).

(** [y] is within [compeps] of the fractional part of [x], taken modulo
    one: a number just below a whole number has a fractional part just
    below one, and may be folded and snapped to 0 as well as to 1. *)
Definition near_fractional_part (x y : Q) : Prop :=
  Qabs (x - inject_Z (Qfloor x) - y) <= compeps \/
  Qabs (x - inject_Z (Qfloor x) - 1 - y) <= compeps.

Definition signed_unit (q : Q) : Prop := q = 0 \/ q = 1 \/ q = - (1).

Definition signed_unit_matrix (mat : list (list Q)) : Prop :=
  shape33 mat /\ Forall (Forall signed_unit) mat.

Fixpoint remove_spaces (s : string) : string :=
  match s with
  | EmptyString => EmptyString
  | String a s' =>
      if Ascii.is_space a then remove_spaces s' else String a (remove_spaces s')
  end.

Fixpoint has_char (c : ascii) (s : string) : bool :=
  match s with
  | EmptyString => false
  | String a s' => Ascii.eqb a c || has_char c s'
  end.


(** Two numbers at most [compeps] apart, and less than [compeps] apart. *)
Definition within (a b : Q) : Prop := Qabs (a - b) <= compeps.
Definition strictly_within (a b : Q) : Prop := Qabs (a - b) < compeps.

(** The entry [m[i][j]] of a matrix that has one. *)
Definition entry (m : list (list Q)) (i j : nat) : Q :=
  default 0 (row ← m !! i; row !! j).

(** The rotation has no entry of size [compeps] or more off its diagonal,
    resp. has the diagonal of the identity. *)
Definition is_diagonal (m : list (list Q)) : Prop :=
  Qabs (entry m 0 1) < compeps /\ Qabs (entry m 0 2) < compeps /\
  Qabs (entry m 1 0) < compeps /\ Qabs (entry m 1 2) < compeps /\
  Qabs (entry m 2 0) < compeps /\ Qabs (entry m 2 1) < compeps.

Definition has_unit_diagonal (m : list (list Q)) : Prop :=
  entry m 0 0 == 1 /\ entry m 1 1 == 1 /\ entry m 2 2 == 1.

(** The squared length that [Vector.__lt__] compares. *)
Definition sq_length (x y z : Q) : Q := x ^ 2 + y ^ 2 + z ^ 2.

(** An operation as the constructor leaves it: a 3x3 rotation and a
    translation of three components. *)
Definition well_formed (o : SymmetryOperation) : Prop :=
  shape33 (rotation o) /\ length (coords (translation o)) = 3%nat.

(** * Proofs *)

(** ** Boolean comparisons on rationals *)

Lemma Qlt_bool_iff x y : Qlt_bool x y = true <-> x < y.
Proof.
  unfold Qlt_bool. rewrite negb_true_iff, <- not_true_iff_false, Qle_bool_iff.
  split; [apply Qnot_le_lt | apply Qlt_not_le].
Qed.

Lemma Qlt_bool_false x y : Qlt_bool x y = false <-> y <= x.
Proof. unfold Qlt_bool. rewrite negb_false_iff. apply Qle_bool_iff. Qed.

Lemma Qle_bool_false x y : Qle_bool x y = false <-> y < x.
Proof.
  rewrite <- not_true_iff_false, Qle_bool_iff.
  split; [apply Qnot_le_lt | apply Qlt_not_le].
Qed.

Lemma Qeq_bool_false x y : Qeq_bool x y = false <-> ~ x == y.
Proof. rewrite <- not_true_iff_false, Qeq_bool_iff. tauto. Qed.

Ltac qbool :=
  repeat match goal with
  | H : Qle_bool _ _ = true |- _ => apply Qle_bool_iff in H
  | H : Qle_bool _ _ = false |- _ => apply Qle_bool_false in H
  | H : Qlt_bool _ _ = true |- _ => apply Qlt_bool_iff in H
  | H : Qlt_bool _ _ = false |- _ => apply Qlt_bool_false in H
  | H : Qeq_bool _ _ = true |- _ => apply Qeq_bool_iff in H
  | H : Qeq_bool _ _ = false |- _ => apply Qeq_bool_false in H
  | H : Qabs _ <= _ |- _ => apply Qabs_Qle_condition in H
  | H : Qabs _ < _ |- _ => apply Qabs_Qlt_condition in H
  end.

(** ** Folding into the default cell

    On the interval [0,1) the loop of [intocell] stops after [steps x] changes
    of the component, and leaves it in the interval. *)

Lemma Qfloor_unique (z : Z) (x : Q) :
  inject_Z z <= x -> x < inject_Z (z + 1) -> Qfloor x = z.
Proof.
  intros Hlo Hhi.
  pose proof (Qfloor_le x) as Hf. pose proof (Qlt_floor x) as Hc.
  assert (inject_Z z < inject_Z (Qfloor x + 1)) as H1
    by (eapply Qle_lt_trans; eassumption).
  assert (inject_Z (Qfloor x) < inject_Z (z + 1)) as H2
    by (eapply Qle_lt_trans; eassumption).
  rewrite <- Zlt_Qlt in H1, H2. lia.
Qed.

Lemma Qfloor_shift (x : Q) (k : Z) : Qfloor (x + inject_Z k) = (Qfloor x + k)%Z.
Proof.
  pose proof (Qfloor_le x) as Hf. pose proof (Qlt_floor x) as Hc.
  apply Qfloor_unique; rewrite !inject_Z_plus in *;
    generalize dependent (inject_Z (Qfloor x)); generalize (inject_Z k);
    intros; cbn in *; lra.
Qed.

Lemma intocell_component_default_S (fuel : nat) (x : Q) :
  intocell_component (S fuel) default_interval x =
  if Qle_bool 0 x then
    if Qlt_bool x 1 then Return x
    else intocell_component fuel default_interval (x - copysign 1 x)
  else intocell_component fuel default_interval (x - copysign 1 x).
Proof. reflexivity. Qed.

Lemma intocell_component_default (fuel : nat) (x : Q) :
  (steps x < fuel)%nat ->
  exists y, intocell_component fuel default_interval x = Return y /\ folded x y.
Proof.
  revert x. induction fuel as [|fuel IH]; intros x Hfuel; [lia|].
  unfold steps in *. rewrite intocell_component_default_S.
  destruct (Qle_bool 0 x) eqn:Hlo.
  - destruct (Qlt_bool x 1) eqn:Hhi; qbool.
    + exists x. split; [reflexivity|]. unfold folded.
      assert (Qfloor x = 0%Z) as ->
        by (apply Qfloor_unique; [change (0 <= x) | change (x < 1)]; lra).
      change (inject_Z 0) with 0. repeat split; lra.
    + assert (copysign 1 x = 1) as ->.
      { unfold copysign. apply Qle_bool_iff in Hlo. now rewrite Hlo. }
      assert (Qfloor (x - 1) = (Qfloor x - 1)%Z) as Hfl.
      { transitivity (Qfloor (x + inject_Z (-1))); [|rewrite Qfloor_shift; lia].
        apply Qfloor_comp. change (inject_Z (-1)) with (-(1)). lra. }
      assert (1 <= Qfloor x)%Z as Hpos.
      { change 1%Z with (Qfloor 1). now apply Qfloor_resp_le. }
      destruct (IH (x - 1)) as (y & Hy & H0 & H1 & Heq); [rewrite Hfl; lia|].
      exists y. split; [exact Hy|]. unfold folded. repeat split; try assumption.
      rewrite Heq, Hfl. unfold Z.sub. rewrite inject_Z_plus, inject_Z_opp.
      change (inject_Z 1) with 1.
      generalize (inject_Z (Qfloor x)). intros; lra.
  - qbool.
    assert (copysign 1 x = -(1)) as ->.
    { unfold copysign. apply Qle_bool_false in Hlo. now rewrite Hlo. }
    assert (Qfloor (x - -(1)) = (Qfloor x + 1)%Z) as Hfl.
    { transitivity (Qfloor (x + inject_Z 1)); [|rewrite Qfloor_shift; lia].
      apply Qfloor_comp. change (inject_Z 1) with 1. lra. }
    assert (Qfloor x <= -1)%Z as Hneg.
    { pose proof (Qfloor_le x) as Hf.
      assert (inject_Z (Qfloor x) < inject_Z 0) as H
        by (change (inject_Z 0) with 0; lra).
      rewrite <- Zlt_Qlt in H. lia. }
    destruct (IH (x - -(1))) as (y & Hy & H0 & H1 & Heq); [rewrite Hfl; lia|].
    exists y. split; [exact Hy|]. unfold folded. repeat split; try assumption.
    rewrite Heq, Hfl. rewrite inject_Z_plus.
    change (inject_Z 1) with 1.
    generalize (inject_Z (Qfloor x)). intros; lra.
Qed.

Lemma improveprecision_unit (x : Q) :
  unit_half_open x -> unit_closed (improveprecision x compeps).
Proof.
  intros [H0 H1]. unfold improveprecision, floatlist, improveprecision_in.
  repeat match goal with
  | |- context [Qle_bool ?a ?b] => destruct (Qle_bool a b) eqn:?
  end; qbool;
  unfold unit_closed, third, half, fourth, sixth, one, two, four, six, zero,
    sqrt2, compeps in *; try lra;
  split; apply Qle_bool_iff; reflexivity.
Qed.

Lemma steps_unit_closed (y : Q) : unit_closed y -> (steps y < 2)%nat.
Proof.
  intros [H0 H1]. unfold steps.
  assert (0 <= Qfloor y)%Z by (change 0%Z with (Qfloor 0); now apply Qfloor_resp_le).
  assert (Qfloor y <= 1)%Z by (change 1%Z with (Qfloor 1); now apply Qfloor_resp_le).
  lia.
Qed.

Lemma fuel_bound_3 (x y z : Q) (fuel : nat) :
  (fuel_bound [x; y; z] <= fuel)%nat ->
  (steps x < fuel)%nat /\ (steps y < fuel)%nat /\ (steps z < fuel)%nat /\
  (2 <= fuel)%nat.
Proof. unfold fuel_bound. cbn [fmap list_fmap foldr]. lia. Qed.

Lemma intocell_default (fuel : nat) (x y z : Q) :
  (steps x < fuel)%nat -> (steps y < fuel)%nat -> (steps z < fuel)%nat ->
  exists x' y' z',
    intocell fuel (mkLatticeVector [x; y; z] default_interval)
    = Return (mkLatticeVector [x'; y'; z'] default_interval) /\
    folded x x' /\ folded y y' /\ folded z z'.
Proof.
  intros Hx Hy Hz.
  destruct (intocell_component_default fuel x Hx) as (x' & Ex & Fx).
  destruct (intocell_component_default fuel y Hy) as (y' & Ey & Fy).
  destruct (intocell_component_default fuel z Hz) as (z' & Ez & Fz).
  exists x', y', z'. split; [|auto].
  unfold intocell, intocell_from, range3. cbn [coords interval].
  cbn -[default_interval]. rewrite Ex.
  cbn -[default_interval]. rewrite Ey. cbn -[default_interval]. rewrite Ez.
  reflexivity.
Qed.

Lemma Vector_improveprecision_3 (x y z : Q) :
  Vector_improveprecision [x; y; z]
  = Return [improveprecision x compeps; improveprecision y compeps;
            improveprecision z compeps].
Proof. reflexivity. Qed.

Lemma folded_unit (x y : Q) : folded x y -> unit_half_open y.
Proof. intros (? & ? & _). now split. Qed.

Lemma LatticeVector_init_3 (fuel : nat) (x y z : Q) :
  (steps x < fuel)%nat -> (steps y < fuel)%nat -> (steps z < fuel)%nat ->
  exists x' y' z',
    folded x x' /\ folded y y' /\ folded z z' /\
    LatticeVector_init fuel [x; y; z]
    = Return (mkLatticeVector
                [improveprecision x' compeps; improveprecision y' compeps;
                 improveprecision z' compeps] default_interval).
Proof.
  intros Hx Hy Hz.
  destruct (intocell_default fuel x y z Hx Hy Hz) as (x' & y' & z' & E & Fx & Fy & Fz).
  exists x', y', z'. split_and!; [assumption..|].
  unfold LatticeVector_init, Vector_init.
  cbn -[intocell default_interval Vector_improveprecision].
  rewrite E. cbn -[intocell default_interval Vector_improveprecision].
  now rewrite Vector_improveprecision_3.
Qed.

Lemma in_interval_default (c : Q) : unit_half_open c -> in_interval default_interval c.
Proof. intros [H0 H1]. exists 0, 1. repeat split; assumption. Qed.

Lemma in_interval_default_inv (c : Q) : in_interval default_interval c -> unit_half_open c.
Proof.
  intros (lo & hi & Hlo & Hhi & H0 & H1). cbn in Hlo, Hhi.
  injection Hlo as <-. injection Hhi as <-. now split.
Qed.

(** Construction followed by a second [intocell]: what [__add__] and
    [transform] do with their result. *)
Lemma init_then_intocell (fuel : nat) (x y z : Q) :
  (fuel_bound [x; y; z] <= fuel)%nat ->
  exists t,
    (t0 ← LatticeVector_init fuel [x; y; z]; intocell fuel t0) = Return t /\
    interval t = default_interval /\ in_cell t.
Proof.
  intros Hb. apply fuel_bound_3 in Hb as (Hx & Hy & Hz & H2).
  destruct (LatticeVector_init_3 fuel x y z Hx Hy Hz)
    as (x' & y' & z' & Fx & Fy & Fz & E).
  rewrite E. cbn -[intocell default_interval improveprecision].
  pose proof (steps_unit_closed _ (improveprecision_unit _ (folded_unit _ _ Fx))).
  pose proof (steps_unit_closed _ (improveprecision_unit _ (folded_unit _ _ Fy))).
  pose proof (steps_unit_closed _ (improveprecision_unit _ (folded_unit _ _ Fz))).
  destruct (intocell_default fuel (improveprecision x' compeps)
              (improveprecision y' compeps) (improveprecision z' compeps))
    as (x2 & y2 & z2 & E2 & F2x & F2y & F2z); try lia.
  eexists. split; [exact E2|]. split; [reflexivity|].
  exists x2, y2, z2. cbn [coords interval].
  split_and!; [reflexivity|..]; apply in_interval_default;
    eapply folded_unit; eassumption.
Qed.

(** ** The interval that a result carries *)

Lemma bind_Return {A B} (m : outcome A) (f : A -> outcome B) (b : B) :
  m ≫= f = Return b -> exists a, m = Return a /\ f a = Return b.
Proof. destruct m as [a| |]; cbn; intros H; [eauto | discriminate..]. Qed.

Lemma intocell_interval (fuel : nat) (v t : LatticeVector) :
  intocell fuel v = Return t -> interval t = interval v.
Proof.
  unfold intocell. intros H. apply bind_Return in H as (c & _ & H).
  now injection H as <-.
Qed.

Lemma LatticeVector_init_interval (fuel : nat) (vec : list Q) (t : LatticeVector) :
  LatticeVector_init fuel vec = Return t -> interval t = default_interval.
Proof.
  unfold LatticeVector_init. intros H.
  apply bind_Return in H as (v & _ & H).
  apply bind_Return in H as (s & Hs & H).
  apply bind_Return in H as (v' & _ & H).
  injection H as <-. cbn. now apply intocell_interval in Hs.
Qed.

Lemma init_then_intocell_interval (fuel : nat) (vec : list Q) (t : LatticeVector) :
  (t0 ← LatticeVector_init fuel vec; intocell fuel t0) = Return t ->
  interval t = default_interval.
Proof.
  intros H. apply bind_Return in H as (t0 & H0 & H).
  apply intocell_interval in H. apply LatticeVector_init_interval in H0. congruence.
Qed.

Lemma LatticeVector_add_interval (fuel : nat) (a b t : LatticeVector) :
  LatticeVector_add fuel a b = Return t -> interval t = default_interval.
Proof.
  unfold LatticeVector_add. intros H.
  apply bind_Return in H as (s0 & _ & H). apply bind_Return in H as (o0 & _ & H).
  destruct (negb (Qeq_bool s0 o0)); [discriminate|].
  apply bind_Return in H as (s1 & _ & H). apply bind_Return in H as (o1 & _ & H).
  destruct (negb (Qeq_bool s1 o1)); [discriminate|].
  apply bind_Return in H as (sum & _ & H).
  now apply init_then_intocell_interval in H.
Qed.

Lemma LatticeVector_transform_interval (fuel : nat) (v t : LatticeVector)
    (matrix : list (list Q)) :
  LatticeVector_transform fuel v matrix = Return t -> interval t = default_interval.
Proof.
  unfold LatticeVector_transform. intros H.
  apply bind_Return in H as (w & _ & H).
  now apply init_then_intocell_interval in H.
Qed.

(** No exception comes out of folding a triple into the default cell. *)
Lemma intocell_component_default_no_raise (fuel : nat) (x : Q) (e : exn) :
  intocell_component fuel default_interval x <> Raise e.
Proof.
  revert x. induction fuel as [|fuel IH]; intros x; [discriminate|].
  rewrite intocell_component_default_S.
  destruct (Qle_bool 0 x); [destruct (Qlt_bool x 1)|]; try apply IH. discriminate.
Qed.

Lemma intocell_default_no_raise (fuel : nat) (x y z : Q) (e : exn) :
  intocell fuel (mkLatticeVector [x; y; z] default_interval) <> Raise e.
Proof.
  unfold intocell, intocell_from, range3. cbn -[default_interval].
  destruct (intocell_component fuel default_interval x) as [x'| |] eqn:Ex;
    cbn -[default_interval]; [|now apply intocell_component_default_no_raise in Ex|discriminate].
  destruct (intocell_component fuel default_interval y) as [y'| |] eqn:Ey;
    cbn -[default_interval]; [|now apply intocell_component_default_no_raise in Ey|discriminate].
  destruct (intocell_component fuel default_interval z) as [z'| |] eqn:Ez;
    cbn -[default_interval]; [|now apply intocell_component_default_no_raise in Ez|discriminate].
  discriminate.
Qed.

Lemma intocell_default_shape (fuel : nat) (x y z : Q) (t : LatticeVector) :
  intocell fuel (mkLatticeVector [x; y; z] default_interval) = Return t ->
  exists x' y' z', t = mkLatticeVector [x'; y'; z'] default_interval.
Proof.
  unfold intocell, intocell_from, range3. cbn -[default_interval].
  destruct (intocell_component fuel default_interval x) as [x'| |];
    cbn -[default_interval]; [|discriminate..].
  destruct (intocell_component fuel default_interval y) as [y'| |];
    cbn -[default_interval]; [|discriminate..].
  destruct (intocell_component fuel default_interval z) as [z'| |];
    cbn -[default_interval]; [|discriminate..].
  intros H. injection H as <-. eauto.
Qed.

Lemma init_then_intocell_no_raise (fuel : nat) (x y z : Q) (e : exn) :
  (t0 ← LatticeVector_init fuel [x; y; z]; intocell fuel t0) <> Raise e.
Proof.
  unfold LatticeVector_init, Vector_init.
  cbn -[intocell default_interval Vector_improveprecision].
  destruct (intocell fuel _) as [t| |] eqn:E;
    [|now apply intocell_default_no_raise in E|discriminate].
  apply intocell_default_shape in E as (x' & y' & z' & ->).
  cbn -[intocell default_interval improveprecision].
  apply intocell_default_no_raise.
Qed.

(** ** LatticeVector: construction, change of interval, addition, transform *)

Lemma in_interval_pair (lo hi c : Q) :
  in_interval [lo; hi] c <-> lo <= c /\ c < hi.
Proof.
  split.
  - intros (l & h & Hl & Hh & H). cbn in Hl, Hh.
    injection Hl as <-. injection Hh as <-. exact H.
  - intros H. exists lo, hi. now split_and!.
Qed.

Lemma in_cell_triple (x y z : Q) (ival : list Q) :
  in_cell (mkLatticeVector [x; y; z] ival) <->
  in_interval ival x /\ in_interval ival y /\ in_interval ival z.
Proof.
  split.
  - intros (x' & y' & z' & E & H). cbn in E, H. now injection E as -> -> ->.
  - intros H. now exists x, y, z.
Qed.

(** Claim C1 (cell membership after construction).  The constructor folds
    and then snaps to the conspicuous numbers, and [1] is one of them: from
    the triple (0.9999, 0, 0) it returns the vector (1, 0, 0) with the
    interval [0,1), whose first component is not below the upper end of the
    interval.  The later fold of [__add__] and [transform] brings such a
    component back (lemma [init_then_intocell]). *)
Theorem LatticeVector_init_leaves_cell (fuel : nat) :
  LatticeVector_init (S fuel) [9999 # 10000; 0; 0]
  = Return (mkLatticeVector [1; 0; 0] default_interval) /\
  ~ in_cell (mkLatticeVector [1; 0; 0] default_interval).
Proof.
  split; [reflexivity|].
  rewrite in_cell_triple. unfold default_interval. rewrite !in_interval_pair.
  intros [[_ H] _]. revert H. apply Qle_not_lt, Qle_refl.
Qed.

Lemma LatticeVector_change_interval_result (fuel : nat) (self t : LatticeVector)
    (ival : list Q) :
  LatticeVector_change_interval fuel self ival = Return t ->
  t = mkLatticeVector (coords self) ival.
Proof.
  unfold LatticeVector_change_interval. intros H.
  apply bind_Return in H as (t0 & _ & H).
  apply bind_Return in H as (s & _ & H). now injection H as <-.
Qed.

(** Claim C2 ([change_interval]).  On the vector (3/4, 0, 0) and the new
    interval [-1/2, 1/2) the call leaves the components as they are and only
    assigns the attribute [interval]; the first component is then outside
    the new interval. *)
Theorem change_interval_keeps_components (fuel : nat) :
  LatticeVector_change_interval (S (S fuel))
    (mkLatticeVector [3 # 4; 0; 0] default_interval) [- (1 # 2); 1 # 2]
  = Return (mkLatticeVector [3 # 4; 0; 0] [- (1 # 2); 1 # 2]) /\
  ~ in_cell (mkLatticeVector [3 # 4; 0; 0] [- (1 # 2); 1 # 2]).
Proof.
  split; [reflexivity|].
  rewrite in_cell_triple, !in_interval_pair.
  intros [[_ H] _]. revert H. apply Qle_not_lt. apply Qle_bool_iff. reflexivity.
Qed.

Lemma LatticeVector_add_same (fuel : nat) (a0 a1 a2 b0 b1 b2 alo ahi blo bhi : Q) :
  same_interval alo ahi blo bhi ->
  LatticeVector_add fuel (mkLatticeVector [a0; a1; a2] [alo; ahi])
                         (mkLatticeVector [b0; b1; b2] [blo; bhi])
  = (t0 ← LatticeVector_init fuel [a0 + b0; a1 + b1; a2 + b2]; intocell fuel t0).
Proof.
  intros [H0 H1]. apply Qeq_bool_iff in H0, H1.
  unfold LatticeVector_add. cbn -[LatticeVector_init intocell Qeq_bool].
  rewrite H0. cbn -[LatticeVector_init intocell Qeq_bool]. now rewrite H1.
Qed.

Lemma LatticeVector_add_differ (fuel : nat) (a0 a1 a2 b0 b1 b2 alo ahi blo bhi : Q) :
  ~ same_interval alo ahi blo bhi ->
  LatticeVector_add fuel (mkLatticeVector [a0; a1; a2] [alo; ahi])
                         (mkLatticeVector [b0; b1; b2] [blo; bhi])
  = Raise GeometryObjectError.
Proof.
  intros H. unfold LatticeVector_add. cbn -[LatticeVector_init intocell Qeq_bool].
  destruct (Qeq_bool alo blo) eqn:H0; [|reflexivity].
  cbn -[LatticeVector_init intocell Qeq_bool].
  destruct (Qeq_bool ahi bhi) eqn:H1; [|reflexivity].
  apply Qeq_bool_iff in H0, H1. destruct H. now split.
Qed.

(** Claim C6 (addition and intervals).  [a + b] raises if and only if the
    ends of the two intervals differ, and the exception is then
    GeometryObjectError; the embedding of [__add__] is a function of the two
    operands, which it never assigns, so they are as before.  When the
    intervals agree the addition returns, given fuel for its folding loop,
    a vector each of whose components lies in the interval that the result
    carries. *)
Theorem LatticeVector_add_raises_iff_intervals_differ
    (fuel : nat) (a0 a1 a2 b0 b1 b2 alo ahi blo bhi : Q) :
  let a := mkLatticeVector [a0; a1; a2] [alo; ahi] in
  let b := mkLatticeVector [b0; b1; b2] [blo; bhi] in
  (raises (LatticeVector_add fuel a b) <-> ~ same_interval alo ahi blo bhi) /\
  (~ same_interval alo ahi blo bhi ->
     LatticeVector_add fuel a b = Raise GeometryObjectError) /\
  (same_interval alo ahi blo bhi ->
     (fuel_bound [a0 + b0; a1 + b1; a2 + b2]%Q <= fuel)%nat ->
     exists t, LatticeVector_add fuel a b = Return t /\ in_cell t).
Proof.
  intros a b. split_and!.
  - split.
    + intros [e He] Hsame. unfold a, b in He.
      rewrite LatticeVector_add_same in He by assumption.
      now apply init_then_intocell_no_raise in He.
    + intros Hd. exists GeometryObjectError. now apply LatticeVector_add_differ.
  - apply LatticeVector_add_differ.
  - intros Hsame Hfuel. unfold a, b. rewrite LatticeVector_add_same by assumption.
    destruct (init_then_intocell fuel _ _ _ Hfuel) as (t & Ht & _ & Hc). eauto.
Qed.

Lemma LatticeVector_add_raises_iff_intervals_differ_witness :
  exists t, LatticeVector_add 3 (mkLatticeVector [3 # 4; 0; 0] [0; 1])
                                (mkLatticeVector [1 # 2; 0; 0] [0; 1]) = Return t
            /\ in_cell t.
Proof.
  apply (LatticeVector_add_raises_iff_intervals_differ 3
           (3 # 4) 0 0 (1 # 2) 0 0 0 1 0 1).
  - split; reflexivity.
  - vm_compute. lia.
Defined.

Lemma mvmult3_rows (m00 m01 m02 m10 m11 m12 m20 m21 m22 v0 v1 v2 : Q) :
  mvmult3 [[m00; m01; m02]; [m10; m11; m12]; [m20; m21; m22]] [v0; v1; v2]
  = Return [0 + m00 * v0 + m10 * v1 + m20 * v2;
            0 + m01 * v0 + m11 * v1 + m21 * v2;
            0 + m02 * v0 + m12 * v1 + m22 * v2].
Proof. reflexivity. Qed.

(** Claim C10 (the interval of a result).  Whatever [__add__] or
    [transform] returns carries the default interval [0,1).  Two operands
    with the interval [-1/2,1/2) add up to a vector folded into [0,1):
    (1/4,0,0) + (1/4,0,0) is (1/2,0,0), and 1/2 is outside [-1/2,1/2).
    Both methods return, given fuel for the folding loop, and the result
    is in the cell [0,1). *)
Theorem add_and_transform_return_default_interval :
  (forall (fuel : nat) (a b t : LatticeVector),
     LatticeVector_add fuel a b = Return t -> interval t = default_interval) /\
  (forall (fuel : nat) (a0 a1 a2 b0 b1 b2 : Q),
     (fuel_bound [a0 + b0; a1 + b1; a2 + b2]%Q <= fuel)%nat ->
     exists t,
       LatticeVector_add fuel (mkLatticeVector [a0; a1; a2] half_interval)
                              (mkLatticeVector [b0; b1; b2] half_interval)
       = Return t /\
       interval t = default_interval /\ in_cell t) /\
  (LatticeVector_add 2 (mkLatticeVector [1 # 4; 0; 0] half_interval)
                       (mkLatticeVector [1 # 4; 0; 0] half_interval)
   = Return (mkLatticeVector [1 # 2; 0; 0] default_interval) /\
   ~ in_interval half_interval (1 # 2)) /\
  (forall (fuel : nat) (v t : LatticeVector) (matrix : list (list Q)),
     LatticeVector_transform fuel v matrix = Return t ->
     interval t = default_interval) /\
  (forall (fuel : nat) (v : LatticeVector) (matrix : list (list Q)) (w0 w1 w2 : Q),
     mvmult3 matrix (coords v) = Return [w0; w1; w2] ->
     (fuel_bound [w0; w1; w2] <= fuel)%nat ->
     exists t,
       LatticeVector_transform fuel v matrix = Return t /\
       interval t = default_interval /\ in_cell t).
Proof.
  split_and!.
  - apply LatticeVector_add_interval.
  - intros fuel a0 a1 a2 b0 b1 b2 Hfuel. unfold half_interval.
    rewrite LatticeVector_add_same by (split; reflexivity).
    now apply init_then_intocell.
  - reflexivity.
  - unfold half_interval. rewrite in_interval_pair. intros [_ H]. revert H.
    apply Qle_not_lt, Qle_refl.
  - apply LatticeVector_transform_interval.
  - intros fuel v matrix w0 w1 w2 Hw Hfuel. unfold LatticeVector_transform.
    rewrite Hw. cbn -[LatticeVector_init intocell].
    now apply init_then_intocell.
Qed.

Lemma add_and_transform_return_default_interval_witness :
  (exists t,
     LatticeVector_add 2 (mkLatticeVector [1 # 4; 0; 0] half_interval)
                         (mkLatticeVector [- (1 # 4); 0; 0] half_interval)
     = Return t /\ interval t = default_interval /\ in_cell t) /\
  (exists t,
     LatticeVector_transform 3 (mkLatticeVector [1 # 4; 0; 0] half_interval)
       [[- (1); 0; 0]; [0; 1; 0]; [0; 0; 1]] = Return t /\
     interval t = default_interval /\ in_cell t).
Proof.
  destruct add_and_transform_return_default_interval as (_ & Hadd & _ & _ & Htr).
  split.
  - apply Hadd. vm_compute. lia.
  - apply (Htr 3%nat _ _ (0 + - (1) * (1 # 4) + 0 * 0 + 0 * 0)
             (0 + 0 * (1 # 4) + 1 * 0 + 0 * 0) (0 + 0 * (1 # 4) + 0 * 0 + 1 * 0)).
    + reflexivity.
    + vm_compute. lia.
Defined.

(** ** The crystal system *)

Ltac branches :=
  repeat match goal with
  | |- context [if ?c then _ else _] => destruct c eqn:?
  end.

(** Claim C7 ([crystal_system]).  The function is total and answers by
    the ranges of the space-group number; 75 falls between two ranges and
    is "unknown", as is everything outside 1..230. *)
Theorem crystal_system_ranges (n : Z) :
  ((0 < n <= 2)%Z -> crystal_system n = "triclinic") /\
  ((2 < n <= 15)%Z -> crystal_system n = "monoclinic") /\
  ((15 < n <= 74)%Z -> crystal_system n = "orthorhombic") /\
  ((75 < n <= 142)%Z -> crystal_system n = "tetragonal") /\
  ((142 < n <= 167)%Z -> crystal_system n = "trigonal") /\
  ((167 < n <= 194)%Z -> crystal_system n = "hexagonal") /\
  ((194 < n <= 230)%Z -> crystal_system n = "cubic") /\
  ((n <= 0 \/ n = 75 \/ 230 < n)%Z -> crystal_system n = "unknown") /\
  crystal_system 1 = "triclinic" /\
  crystal_system 230 = "cubic" /\
  crystal_system 0 = "unknown".
Proof.
  split_and!; try reflexivity; intros H; unfold crystal_system; branches;
    first [reflexivity | lia].
Qed.

Lemma crystal_system_ranges_witness :
  crystal_system 2 = "triclinic" /\ crystal_system 76 = "tetragonal" /\
  crystal_system 75 = "unknown".
Proof.
  split_and!.
  - destruct (crystal_system_ranges 2) as (H & _). apply H. lia.
  - destruct (crystal_system_ranges 76) as (_ & _ & _ & H & _). apply H. lia.
  - destruct (crystal_system_ranges 75) as (_ & _ & _ & _ & _ & _ & _ & H & _).
    apply H. lia.
Defined.

(** ** Vector: construction *)

Lemma Vector_init_accepts_two_components :
  length [1; 2] <> 3%nat /\
  Vector_init [1; 2] = Return [1; 2] /\
  Vector_init [1; 2] <> Raise GeometryObjectError.
Proof. split_and!; [discriminate | reflexivity | discriminate]. Qed.

Lemma getitem_ge {A} (l : list A) (i : nat) :
  (length l <= i)%nat -> getitem l i = Raise IndexError.
Proof. intros H. unfold getitem. now rewrite lookup_ge_None_2. Qed.

(** Claim C9, amended (no check of the length).  Constructing a Vector
    succeeds on a sequence of any length and keeps its elements; a sequence
    of fewer than three elements makes the first read of a missing
    component fail, so that constructing a LatticeVector from it raises
    IndexError. *)
Theorem Vector_init_any_length :
  (forall vec : list Q, Vector_init vec = Return vec) /\
  (forall (fuel : nat) (vec : list Q),
     (length vec < 3)%nat -> (fuel_bound vec <= fuel)%nat ->
     LatticeVector_init fuel vec = Raise IndexError).
Proof.
  split; [reflexivity|].
  intros fuel vec Hlen Hfuel. unfold fuel_bound in Hfuel.
  unfold LatticeVector_init, Vector_init, intocell, intocell_from, range3.
  destruct vec as [|x [|y [|z vec]]]; cbn [length] in Hlen; try lia;
    cbn [fmap list_fmap foldr] in Hfuel.
  - reflexivity.
  - destruct (intocell_component_default fuel x) as (x' & Ex & _); [lia|].
    cbn -[default_interval]. rewrite Ex. reflexivity.
  - destruct (intocell_component_default fuel x) as (x' & Ex & _); [lia|].
    destruct (intocell_component_default fuel y) as (y' & Ey & _); [lia|].
    cbn -[default_interval]. rewrite Ex. cbn -[default_interval]. rewrite Ey.
    reflexivity.
Qed.

Lemma Vector_init_any_length_witness :
  LatticeVector_init 4 [5 # 2; 0] = Raise IndexError.
Proof.
  apply Vector_init_any_length.
  - cbn. lia.
  - vm_compute. lia.
Defined.


(** ** Determinant and inverse *)

Lemma det3_rows (a b c d e f g h i : Q) :
  det3 [[a; b; c]; [d; e; f]; [g; h; i]]
  = Return (a * (e * i - f * h) + b * (f * g - d * i) + c * (d * h - e * g)).
Proof. reflexivity. Qed.

(** Claim C8, amended (the inverse).  For a 3x3 matrix of exact rationals
    whose determinant is not zero, the product of [minv3] of the matrix with
    the matrix is the identity matrix, entry by entry.  On binary64 numbers
    no tolerance holds for every matrix with a non-zero determinant, as the
    matrix of the entries 0.1, ..., 0.9 shows below. *)
Theorem minv3_left_inverse (a b c d e f g h i dt : Q) :
  det3 [[a; b; c]; [d; e; f]; [g; h; i]] = Return dt ->
  ~ dt == 0 ->
  exists W P,
    minv3 [[a; b; c]; [d; e; f]; [g; h; i]] = Return W /\
    mmmult3 W [[a; b; c]; [d; e; f]; [g; h; i]] = Return P /\
    mat_eq P identity3.
Proof.
  intros Hd Hnz. rewrite det3_rows in Hd. injection Hd as <-.
  unfold minv3. rewrite det3_rows. cbn [mbind outcome_bind].
  destruct (Qeq_bool _ 0) eqn:E.
  { apply Qeq_bool_iff in E. contradiction. }
  eexists _, _. split; [reflexivity|]. split; [reflexivity|].
  repeat constructor; field; exact Hnz.
Qed.

Lemma minv3_left_inverse_witness :
  exists W P,
    minv3 [[1; 2; 3]; [4; 5; 6]; [7; 8; 10]] = Return W /\
    mmmult3 W [[1; 2; 3]; [4; 5; 6]; [7; 8; 10]] = Return P /\
    mat_eq P identity3.
Proof.
  apply (minv3_left_inverse 1 2 3 4 5 6 7 8 10 (- (3))).
  - reflexivity.
  - intros H. discriminate H.
Defined.

(** On the binary64 matrix of the entries 0.1, ..., 0.9 the determinant is
    computed as 1.7e-17, not zero; [minv3] returns, and the product of its
    result with the matrix has entries that differ from those of the
    identity matrix by more than 1. *)
Lemma minv3_binary64_product_far_from_identity :
  Binary64.det3 Binary64.tenths = Return Binary64.tenths_det /\
  PrimFloat.eqb Binary64.tenths_det PrimFloat.zero = false /\
  (w ← Binary64.minv3 Binary64.tenths; Binary64.mmmult3 w Binary64.tenths)
  = Return Binary64.tenths_product /\
  Binary64.differ_by_more_than PrimFloat.one
    Binary64.tenths_product Binary64.identity3 = true.
Proof. split_and!; vm_compute; reflexivity. Qed.


(** ** AtomSite: equality and hash *)

Lemma same_items_keys (d1 d2 : list (string * Q)) :
  same_items d1 d2 -> d1.*1 = d2.*1.
Proof.
  induction 1 as [|[k v] [k' v'] d1 d2 [Hk _] _ IH]; [reflexivity|].
  cbn in *. now rewrite Hk, IH.
Qed.

Lemma same_items_sum (d1 d2 : list (string * Q)) :
  same_items d1 d2 ->
  forall a b : Q, a == b -> foldl Qplus a d1.*2 == foldl Qplus b d2.*2.
Proof.
  induction 1 as [|[k v] [k' v'] d1 d2 [_ Hv] _ IH]; intros a b Hab; [exact Hab|].
  cbn in *. apply IH. now rewrite Hab, Hv.
Qed.

Lemma Vector_eq_close (x y z x' y' z' : Q) :
  Qabs (x - x') < compeps -> Qabs (y - y') < compeps -> Qabs (z - z') < compeps ->
  Vector_eq [x; y; z] [x'; y'; z'] = Return true.
Proof.
  intros Hx Hy Hz. unfold Vector_eq, Vector_eq_from, range3.
  cbn -[Qlt_bool Qabs compeps].
  assert (forall d, Qabs d < compeps -> Qlt_bool compeps (Qabs d) = false) as Hlt.
  { intros d Hd. apply Qlt_bool_false. now apply Qlt_le_weak. }
  now rewrite !Hlt.
Qed.

Lemma AtomSite_close_sites_hash_differently :
  Binary64.close (Binary64.position Binary64.site_a)
                 (Binary64.position Binary64.site_b) = true /\
  Binary64.dict_eq (Binary64.species Binary64.site_a)
                   (Binary64.species Binary64.site_b) = true /\
  Binary64.AtomSite_eq Binary64.site_a Binary64.site_b = Return true /\
  (forall hash_str : string -> Z,
     Binary64.AtomSite_hash Binary64.py3_hash_float hash_str Binary64.site_a
     <> Binary64.AtomSite_hash Binary64.py3_hash_float hash_str Binary64.site_b) /\
  (forall hash_str : string -> Z,
     Binary64.AtomSite_hash Binary64.py2_hash_float hash_str Binary64.site_a
     <> Binary64.AtomSite_hash Binary64.py2_hash_float hash_str Binary64.site_b).
Proof.
  split_and!.
  - vm_compute. reflexivity.
  - vm_compute. reflexivity.
  - vm_compute. reflexivity.
  - intros hash_str. unfold Binary64.AtomSite_hash.
    assert (Binary64.Vector_hash Binary64.py3_hash_float
              (Binary64.position Binary64.site_a)
            = Return 253642731013506368%Z) as -> by (vm_compute; reflexivity).
    assert (Binary64.Vector_hash Binary64.py3_hash_float
              (Binary64.position Binary64.site_b)
            = Return 253896373744519840%Z) as -> by (vm_compute; reflexivity).
    cbn [mbind outcome_bind]. intros [= H]. revert H.
    change (Binary64.species Binary64.site_b) with (Binary64.species Binary64.site_a).
    lia.
  - intros hash_str. unfold Binary64.AtomSite_hash.
    assert (Binary64.Vector_hash Binary64.py2_hash_float
              (Binary64.position Binary64.site_a)
            = Return 2405083914%Z) as -> by (vm_compute; reflexivity).
    assert (Binary64.Vector_hash Binary64.py2_hash_float
              (Binary64.position Binary64.site_b)
            = Return 3717453571%Z) as -> by (vm_compute; reflexivity).
    cbn [mbind outcome_bind]. intros [= H]. revert H.
    change (Binary64.species Binary64.site_b) with (Binary64.species Binary64.site_a).
    lia.
Qed.

(** Claim C3, amended (equality and hash of sites).  Two sites whose
    positions differ by less than [compeps] in every component and whose
    species are equal compare equal.  Their hashes agree when moreover the
    positions are equal component by component and the two dictionaries
    have their items in the same order of iteration: the hash is taken of
    1.1*p0 + 1.2*p1 + 1.3*p2 and of the sum of the occupancies as they are
    computed, without any rounding to the tolerance.  This holds for every
    [hash] that gives equal numbers the same hash. *)
Theorem AtomSite_close_eq_and_hash
    (hash_num : Q -> Z) (s t : AtomSite) (x y z x' y' z' : Q) :
  (forall p q : Q, p == q -> hash_num p = hash_num q) ->
  coords (position s) = [x; y; z] -> coords (position t) = [x'; y'; z'] ->
  Qabs (x - x') < compeps -> Qabs (y - y') < compeps -> Qabs (z - z') < compeps ->
  dict_eq (species s) (species t) = true ->
  AtomSite_eq s t = Return true /\
  (x == x' /\ y == y' /\ z == z' -> same_items (species s) (species t) ->
   forall hash_str : string -> Z,
   exists h, AtomSite_hash hash_num hash_str s = Return h /\
             AtomSite_hash hash_num hash_str t = Return h).
Proof.
  intros Hhash Hs Ht Hx Hy Hz Hsp. split.
  - unfold AtomSite_eq. rewrite Hs, Ht, Vector_eq_close by assumption.
    cbn. now rewrite Hsp.
  - intros (Ex & Ey & Ez) Hitems hash_str.
    unfold AtomSite_hash, Vector_hash. rewrite Hs, Ht.
    cbn [getitem lookup list_lookup mbind outcome_bind].
    eexists. split; [reflexivity|].
    unfold sorted_keys, sum_values. rewrite (same_items_keys _ _ Hitems).
    rewrite (Hhash (foldl Qplus 0 (species s).*2) (foldl Qplus 0 (species t).*2))
      by (apply same_items_sum; [assumption | reflexivity]).
    rewrite (Hhash ((11 # 10) * x + (12 # 10) * y + (13 # 10) * z)
                   ((11 # 10) * x' + (12 # 10) * y' + (13 # 10) * z'))
      by (rewrite Ex, Ey, Ez; reflexivity).
    reflexivity.
Qed.

Lemma AtomSite_close_eq_and_hash_witness :
  AtomSite_eq site_a site_b = Return true.
Proof.
  apply (AtomSite_close_eq_and_hash py_hash_num site_a site_b
           (1 # 10) 0 0 (1001 # 10000) 0 0);
    try reflexivity.
  intros p q Hpq. unfold py_hash_num. now rewrite (Qred_complete _ _ Hpq).
Defined.


(** ** SymmetryOperation: the identity and the order *)

Lemma SymmetryOperation_init_xyz
    (eval : string -> list value -> outcome (value * list value)) (fuel : nat) :
  SymmetryOperation_init eval (S fuel) ["x"; "y"; "z"]%string = Return identity_op.
Proof. reflexivity. Qed.

Ltac first_test :=
  match goal with
  | |- context [if ?c then _ else _] =>
      lazymatch c with
      | context [if _ then _ else _] => fail
      | _ => destruct c eqn:?
      end
  end.

Section Against_identity.
Variables (eqs : list string) (r00 r01 r02 r10 r11 r12 r20 r21 r22 : Q).
Variables (t0 t1 t2 : Q) (ival : list Q).

Local Abbreviation o :=
  (mkSymmetryOperation eqs [[r00; r01; r02]; [r10; r11; r12]; [r20; r21; r22]]
     (mkLatticeVector [t0; t1; t2] ival)).

Lemma lt_identity_unfold :
  SymmetryOperation_lt o identity_op =
  if Qlt_bool (t0 ^ 2 + t1 ^ 2 + t2 ^ 2) (0 ^ 2 + 0 ^ 2 + 0 ^ 2) then Return true
  else if Qlt_bool (0 ^ 2 + 0 ^ 2 + 0 ^ 2) (t0 ^ 2 + t1 ^ 2 + t2 ^ 2) then Return false
  else if Qlt_bool (Qabs r01) compeps then
    if Qlt_bool (Qabs r02) compeps then
    if Qlt_bool (Qabs r10) compeps then
    if Qlt_bool (Qabs r12) compeps then
    if Qlt_bool (Qabs r20) compeps then
    if Qlt_bool (Qabs r21) compeps then
      if Qeq_bool r00 r11 then
        if Qeq_bool r11 r22 then
          if Qeq_bool r22 1 then Return true else Return false
        else Return false
      else Return false
    else Return false else Return false else Return false
    else Return false else Return false else Return false.
Proof.
  unfold SymmetryOperation_lt, Vector_lt, sqnorm, diagonal, unit_diagonal,
    small_entry, and_then.
  cbn -[Qlt_bool Qabs Qeq_bool compeps Qpower].
  change (Qlt_bool (Qabs 0) compeps) with true.
  repeat (first_test; cbn -[Qlt_bool Qabs Qeq_bool compeps Qpower]; try reflexivity).
Qed.

Lemma eq_identity_unfold :
  SymmetryOperation_eq o identity_op = Return true \/
  SymmetryOperation_eq o identity_op = Return false.
Proof.
  unfold SymmetryOperation_eq, SymmetryOperation_eq_rows, SymmetryOperation_eq_row,
    Vector_eq, Vector_eq_from, and_then, range3.
  cbn -[Qlt_bool Qabs Qeq_bool compeps Qpower Qminus].
  repeat (first_test; cbn -[Qlt_bool Qabs Qeq_bool compeps Qpower Qminus]; auto).
Qed.

Lemma eq_identity_true :
  Qabs (r00 - 1) < compeps -> Qabs (r01 - 0) < compeps -> Qabs (r02 - 0) < compeps ->
  Qabs (r10 - 0) < compeps -> Qabs (r11 - 1) < compeps -> Qabs (r12 - 0) < compeps ->
  Qabs (r20 - 0) < compeps -> Qabs (r21 - 0) < compeps -> Qabs (r22 - 1) < compeps ->
  Qabs (t0 - 0) <= compeps -> Qabs (t1 - 0) <= compeps -> Qabs (t2 - 0) <= compeps ->
  SymmetryOperation_eq o identity_op = Return true.
Proof.
  intros.
  unfold SymmetryOperation_eq, SymmetryOperation_eq_rows, SymmetryOperation_eq_row,
    Vector_eq, Vector_eq_from, and_then, range3.
  cbn -[Qlt_bool Qabs Qeq_bool compeps Qpower Qminus].
  repeat match goal with
  | H : Qabs ?d < compeps |- context [Qlt_bool (Qabs ?d) compeps] =>
      rewrite (proj2 (Qlt_bool_iff _ _) H)
  | H : Qabs ?d <= compeps |- context [Qlt_bool compeps (Qabs ?d)] =>
      rewrite (proj2 (Qlt_bool_false _ _) H)
  | |- _ => progress cbn -[Qlt_bool Qabs Qeq_bool compeps Qpower Qminus]
  end.
  reflexivity.
Qed.

Lemma square_sum_zero (a b c : Q) :
  a ^ 2 + b ^ 2 + c ^ 2 <= 0 ^ 2 + 0 ^ 2 + 0 ^ 2 -> a == 0 /\ b == 0 /\ c == 0.
Proof.
  change (a ^ 2) with (a * a). change (b ^ 2) with (b * b).
  change (c ^ 2) with (c * c). change (0 ^ 2) with (0 * 0).
  intros H. split_and!; nra.
Qed.

Lemma lt_identity_true_eq :
  SymmetryOperation_lt o identity_op = Return true ->
  SymmetryOperation_eq o identity_op = Return true.
Proof.
  rewrite lt_identity_unfold.
  repeat (first_test; try discriminate); intros _; qbool.
  { exfalso.
    match goal with H : _ < 0 ^ 2 + 0 ^ 2 + 0 ^ 2 |- _ => revert H end.
    apply Qle_not_lt.
    change (0 ^ 2 + 0 ^ 2 + 0 ^ 2) with (0 * 0 + 0 * 0 + 0 * 0).
    change (t0 ^ 2) with (t0 * t0). change (t1 ^ 2) with (t1 * t1).
    change (t2 ^ 2) with (t2 * t2). nra. }
  match goal with
  | H : _ ^ 2 + _ ^ 2 + _ ^ 2 <= 0 ^ 2 + 0 ^ 2 + 0 ^ 2 |- _ =>
      apply square_sum_zero in H as (Ht0 & Ht1 & Ht2)
  end.
  apply eq_identity_true;
    first [apply Qabs_Qlt_condition | apply Qabs_Qle_condition];
    unfold compeps in *; split; lra.
Qed.

Lemma lt_identity_total :
  exists b, SymmetryOperation_lt o identity_op = Return b.
Proof.
  rewrite lt_identity_unfold. repeat first_test; eauto.
Qed.

Lemma not_eq_identity_not_lt :
  SymmetryOperation_eq o identity_op = Return false ->
  SymmetryOperation_lt o identity_op = Return false.
Proof.
  intros Heq. destruct lt_identity_total as [[|] Hb]; [|exact Hb].
  apply lt_identity_true_eq in Hb. congruence.
Qed.
End Against_identity.

Lemma sqnorm_nonneg (v : list Q) (n : Q) : sqnorm v = Return n -> 0 <= n.
Proof.
  unfold sqnorm. intros H.
  apply bind_Return in H as (x & _ & H). apply bind_Return in H as (y & _ & H).
  apply bind_Return in H as (z & _ & H). injection H as <-.
  change (x ^ 2) with (x * x). change (y ^ 2) with (y * y).
  change (z ^ 2) with (z * z). nra.
Qed.

(** The identity is never on the wrong side of [<]: whatever the other
    operation is, [identity < o] is not answered with False. *)
Lemma identity_lt_not_false (o : SymmetryOperation) :
  SymmetryOperation_lt identity_op o <> Return false.
Proof.
  unfold SymmetryOperation_lt, Vector_lt.
  change (sqnorm (coords (translation identity_op))) with (Return (0 ^ 2 + 0 ^ 2 + 0 ^ 2)).
  destruct (sqnorm (coords (translation o))) as [n| |] eqn:Hn; [|discriminate..].
  apply sqnorm_nonneg in Hn.
  cbn -[Qlt_bool diagonal unit_diagonal Qpower].
  destruct (Qlt_bool (0 ^ 2 + 0 ^ 2 + 0 ^ 2) n) eqn:H1; [discriminate|].
  destruct (Qlt_bool n (0 ^ 2 + 0 ^ 2 + 0 ^ 2)) eqn:H2.
  { exfalso. apply Qlt_bool_iff in H2. revert H2. now apply Qle_not_lt. }
  change (diagonal identity_op) with (Return true).
  change (unit_diagonal identity_op) with (Return true).
  cbn -[diagonal].
  destruct (diagonal o) as [[|]| |]; discriminate.
Qed.

Lemma identity_lt_wellformed (eqs : list string)
    (r00 r01 r02 r10 r11 r12 r20 r21 r22 t0 t1 t2 : Q) (ival : list Q) :
  SymmetryOperation_lt identity_op
    (mkSymmetryOperation eqs [[r00; r01; r02]; [r10; r11; r12]; [r20; r21; r22]]
       (mkLatticeVector [t0; t1; t2] ival)) = Return true.
Proof.
  match goal with |- SymmetryOperation_lt _ ?o = _ =>
    pose proof (identity_lt_not_false o) as Hnot; revert Hnot end.
  unfold SymmetryOperation_lt, Vector_lt, sqnorm, diagonal, unit_diagonal,
    small_entry, and_then.
  cbn -[Qlt_bool Qabs Qeq_bool compeps Qpower].
  repeat (first_test; cbn -[Qlt_bool Qabs Qeq_bool compeps Qpower]);
    first [reflexivity | intros Hnot; now destruct Hnot].
Qed.

Lemma sorted_identity_first (l : list SymmetryOperation) :
  sorted_by_lt l -> identity_op ∈ l -> l !! 0%nat = Some identity_op.
Proof.
  intros Hsorted [j Hj]%list_elem_of_lookup.
  destruct j as [|j]; [exact Hj|].
  destruct (l !! 0%nat) as [a|] eqn:Ha.
  - exfalso. apply (identity_lt_not_false a).
    apply (Hsorted 0%nat (S j)); [lia | assumption..].
  - apply lookup_ge_None in Ha. apply lookup_lt_Some in Hj. lia.
Qed.

(** Claim C4 (the identity operation).  ['x','y','z'] is parsed into the
    identity rotation and the zero translation.  For every operation [o]
    that does not compare equal ([==]) to the identity, [o < identity] is
    False, and [identity < o] is True for every [o]; hence in any list that
    is in the order of [<] and contains the identity, the identity is the
    first element. *)
Theorem identity_parses_and_sorts_first :
  (forall (eval : string -> list value -> outcome (value * list value)) (fuel : nat),
     SymmetryOperation_init eval (S fuel) ["x"; "y"; "z"]%string = Return identity_op) /\
  rotation identity_op = identity3 /\
  coords (translation identity_op) = [0; 0; 0] /\
  (forall (eqs : list string) (r00 r01 r02 r10 r11 r12 r20 r21 r22 t0 t1 t2 : Q)
          (ival : list Q),
     let o := mkSymmetryOperation eqs
                [[r00; r01; r02]; [r10; r11; r12]; [r20; r21; r22]]
                (mkLatticeVector [t0; t1; t2] ival) in
     (SymmetryOperation_eq o identity_op = Return false ->
      SymmetryOperation_lt o identity_op = Return false) /\
     SymmetryOperation_lt identity_op o = Return true) /\
  (forall l : list SymmetryOperation,
     sorted_by_lt l -> identity_op ∈ l -> l !! 0%nat = Some identity_op).
Proof.
  split_and!.
  - apply SymmetryOperation_init_xyz.
  - reflexivity.
  - reflexivity.
  - intros. split.
    + apply not_eq_identity_not_lt.
    + apply identity_lt_wellformed.
  - apply sorted_identity_first.
Qed.

Lemma identity_parses_and_sorts_first_witness :
  SymmetryOperation_init (lift eval_literal) 1 ["-x"; "y"; "z"]%string
  = Return mirror_op /\
  SymmetryOperation_lt mirror_op identity_op = Return false /\
  [identity_op; mirror_op] !! 0%nat = Some identity_op.
Proof.
  destruct identity_parses_and_sorts_first as (_ & _ & _ & Hlt & Hsort).
  split_and!.
  - reflexivity.
  - apply (Hlt ["-x"; "y"; "z"]%string (- (1)) 0 0 0 1 0 0 0 1 0 0 0 default_interval).
    reflexivity.
  - apply Hsort.
    + intros i j a b Hij Ha Hb.
      destruct i as [|[|i]], j as [|[|j]]; try lia; try discriminate.
      injection Ha as <-. injection Hb as <-. reflexivity.
    + apply list_elem_of_here.
Defined.


(** ** SymmetryOperation: the parser

    No token of an expression has a sign after its first character; hence
    [rotmat] only converts "1", "+1" and "-1" and cannot fail on three
    entries, and the outcome of the construction is decided by the calls of
    [eval] that [transvec] makes. *)

Lemma replace_hit (c : ascii) (s : string) :
  replace c (String " " (String c EmptyString)) (String c s)
  = String " " (String c (replace c (String " " (String c EmptyString)) s)).
Proof. cbn [replace]. now rewrite Ascii.eqb_refl. Qed.

Lemma replace_miss (c a : ascii) (new s : string) :
  a <> c -> replace c new (String a s) = String a (replace c new s).
Proof. intros H. cbn [replace]. now destruct (Ascii.eqb_spec a c). Qed.

Lemma replace_guards (c : ascii) (p : bool) (s : string) :
  Ascii.is_space c = false ->
  guarded c p (replace c (String " " (String c EmptyString)) s).
Proof.
  intros Hc. revert p. induction s as [|a s IH]; intros p; [exact I|].
  destruct (Ascii.eqb_spec a c) as [->|Hne].
  - rewrite replace_hit. cbn [guarded]. split_and!.
    + intros <-. discriminate.
    + reflexivity.
    + rewrite Hc. apply IH.
  - rewrite replace_miss by assumption. cbn [guarded]. split; [congruence | apply IH].
Qed.

Lemma replace_keeps_guarded (c d : ascii) (p : bool) (s : string) :
  c <> d -> c <> " "%char ->
  guarded c p s -> guarded c p (replace d (String " " (String d EmptyString)) s).
Proof.
  intros Hcd Hsp. revert p. induction s as [|a s IH]; intros p; [trivial|].
  cbn [guarded]. intros [Ha Hs]. destruct (Ascii.eqb_spec a d) as [->|Hne].
  - rewrite replace_hit. cbn [guarded]. split_and!.
    + intros E. now destruct Hsp.
    + intros E. now destruct Hcd.
    + now apply IH.
  - rewrite replace_miss by assumption. cbn [guarded].
    split; [exact Ha | now apply IH].
Qed.

Lemma spaced_signs_guarded (p : bool) (s : string) :
  guarded "+" p (spaced_signs s) /\ guarded "-" p (spaced_signs s).
Proof.
  unfold spaced_signs. split.
  - apply replace_keeps_guarded; [discriminate..|]. now apply replace_guards.
  - now apply replace_guards.
Qed.

Lemma is_sign_cases (a : ascii) :
  is_sign a = true -> a = "+"%char \/ a = "-"%char.
Proof.
  intros H. destruct (Ascii.eqb_spec a "+") as [|H1]; [now left|].
  destruct (Ascii.eqb_spec a "-") as [|H2]; [now right|].
  exfalso. destruct a as [[] [] [] [] [] [] [] []]; cbn in H; congruence.
Qed.

Lemma split_tokens_ok (s : string) :
  forall p : bool,
    guarded "+" p s -> guarded "-" p s ->
    Forall token_ok (split s) /\
    (p = false ->
     match s with
     | String a _ =>
         Ascii.is_space a = false ->
         match split s with
         | tok :: _ => sign_free tok
         | [] => True
         end
     | EmptyString => True
     end).
Proof.
  induction s as [|a s IH]; intros p Hp Hm; [split; [constructor|trivial]|].
  cbn [guarded] in Hp, Hm. destruct Hp as [Hpa Hp], Hm as [Hma Hm].
  destruct (IH _ Hp Hm) as [IH1 IH2]. cbn [split].
  destruct (Ascii.is_space a) eqn:Ha.
  { split; [exact IH1 | discriminate]. }
  assert (p = false -> is_sign a = false) as Hsign.
  { intros ->. destruct (is_sign a) eqn:E; [|reflexivity].
    apply is_sign_cases in E as [->| ->];
      [specialize (Hpa eq_refl) | specialize (Hma eq_refl)]; discriminate. }
  destruct s as [|b s'].
  { split; [repeat constructor|]. intros Hpf _. cbn. auto. }
  destruct (Ascii.is_space b) eqn:Hb.
  { split; [constructor; [exact I | exact IH1]|]. intros Hpf _. cbn. auto. }
  specialize (IH2 eq_refl eq_refl).
  destruct (split (String b s')) as [|tok rest].
  { split; [repeat constructor|]. intros Hpf _. cbn. auto. }
  split.
  - constructor; [exact IH2 | now inversion IH1].
  - intros Hpf _. cbn. auto.
Qed.

Lemma tokens_ok (s : string) : Forall token_ok (tokens s).
Proof.
  destruct (spaced_signs_guarded false s) as [Hp Hm].
  now apply (split_tokens_ok _ false).
Qed.

Lemma mem_char_signs (a : ascii) : mem_char a "+-" = is_sign a.
Proof. destruct a as [[] [] [] [] [] [] [] []]; reflexivity. Qed.

Lemma lstrip_sign_free (s : string) : sign_free s -> lstrip "+-" s = s.
Proof.
  destruct s as [|a s]; [reflexivity|]. intros [Ha _]. cbn [lstrip].
  now rewrite mem_char_signs, Ha.
Qed.

Lemma rstrip_sign_free (s : string) : sign_free s -> rstrip "+-" s = s.
Proof.
  induction s as [|a s IH]; [reflexivity|]. intros [Ha Hs]. cbn [rstrip].
  rewrite (IH Hs), mem_char_signs, Ha. now destruct s.
Qed.

Lemma strip_signs_letter (t : string) (c : ascii) :
  token_ok t -> strip "+-" t = String c EmptyString ->
  t = String c EmptyString \/ t = String "+" (String c EmptyString) \/
  t = String "-" (String c EmptyString).
Proof.
  destruct t as [|a r]; [intros []|]. cbn [token_ok]. intros Hr.
  unfold strip. cbn [lstrip]. rewrite mem_char_signs.
  destruct (is_sign a) eqn:Ha.
  - rewrite lstrip_sign_free, rstrip_sign_free by assumption. intros ->.
    apply is_sign_cases in Ha as [->| ->]; auto.
  - rewrite rstrip_sign_free by (split; assumption). intros E. now left.
Qed.

Lemma setitem2_shape33 (mat : list (list Q)) (i j : nat) (v : Q) :
  shape33 mat -> (i < 3)%nat -> (j < 3)%nat ->
  exists mat', setitem2 mat i j v = Return mat' /\ shape33 mat'.
Proof.
  intros (a & b & c & d & e & f & g & h & k & ->) Hi Hj.
  destruct i as [|[|[|i]]]; try lia; destruct j as [|[|[|j]]]; try lia;
    (eexists; split; [reflexivity|]); unfold shape33; cbn; eauto 12.
Qed.

Ltac eval_float :=
  match goal with
  | |- context [py_float ?s] =>
      let r := eval vm_compute in (py_float s) in
      change (py_float s) with r; cbn [mbind outcome_bind]
  end.

Lemma rotmat_token_ok (j : nat) (tok : string) (mat : list (list Q)) :
  token_ok tok -> (j < 3)%nat -> shape33 mat ->
  exists mat', rotmat_token j tok mat = Return mat' /\ shape33 mat'.
Proof.
  intros Htok Hj Hmat. unfold rotmat_token.
  destruct (String.eqb_spec (strip "+-" tok) "x") as [Ex|_].
  { apply (strip_signs_letter _ _ Htok) in Ex as [->|[->| ->]];
      eval_float; apply setitem2_shape33; first [assumption | lia]. }
  destruct (String.eqb_spec (strip "+-" tok) "y") as [Ey|_].
  { apply (strip_signs_letter _ _ Htok) in Ey as [->|[->| ->]];
      eval_float; apply setitem2_shape33; first [assumption | lia]. }
  destruct (String.eqb_spec (strip "+-" tok) "z") as [Ez|_].
  { apply (strip_signs_letter _ _ Htok) in Ez as [->|[->| ->]];
      eval_float; apply setitem2_shape33; first [assumption | lia]. }
  eauto.
Qed.

Lemma rotmat_tokens_ok (j : nat) (xyz : list string) (mat : list (list Q)) :
  Forall token_ok xyz -> (j < 3)%nat -> shape33 mat ->
  exists mat', rotmat_tokens j xyz mat = Return mat' /\ shape33 mat'.
Proof.
  intros Hxyz Hj. revert mat. induction Hxyz as [|tok xyz Htok _ IH]; intros mat Hmat.
  - cbn. eauto.
  - cbn [rotmat_tokens].
    destruct (rotmat_token_ok j tok mat Htok Hj Hmat) as (mat1 & -> & Hmat1).
    cbn [mbind outcome_bind]. now apply IH.
Qed.

Lemma rotmat_entries_ok (entries : list string) :
  forall (j : nat) (mat : list (list Q)),
    (j + length entries <= 3)%nat -> shape33 mat ->
    exists mat', rotmat_entries j entries mat = Return mat' /\ shape33 mat'.
Proof.
  induction entries as [|e entries IH]; intros j mat Hlen Hmat.
  - cbn. eauto.
  - cbn [length] in Hlen. cbn [rotmat_entries].
    destruct (rotmat_tokens_ok j (tokens e) mat (tokens_ok e)) as (mat1 & -> & Hmat1);
      [lia | assumption |].
    cbn [mbind outcome_bind]. apply IH; [lia | assumption].
Qed.

Lemma rotmat_ok (eqsite : list string) :
  (length eqsite <= 3)%nat -> exists rot, rotmat eqsite = Return rot /\ shape33 rot.
Proof.
  intros Hlen. unfold rotmat.
  destruct (rotmat_entries_ok eqsite 0 [[0; 0; 0]; [0; 0; 0]; [0; 0; 0]])
    as (mat & -> & Hmat); [lia | unfold shape33; eauto 12 |].
  destruct Hmat as (a & b & c & d & e & f & g & h & k & ->).
  eexists. split; [reflexivity|]. unfold shape33. eauto 12.
Qed.

Section Transvec.
Variable ev : string -> outcome value.

Lemma eval_in_order_app (l k : list string) :
  eval_in_order ev (l ++ k) = (_ ← eval_in_order ev l; eval_in_order ev k).
Proof.
  induction l as [|t l IH]; [reflexivity|]. cbn [app eval_in_order].
  destruct (ev t); cbn [mbind outcome_bind]; [exact IH | reflexivity..].
Qed.

Lemma setitem_lt {A} (vec : list A) (j : nat) (v : A) :
  (j < length vec)%nat -> setitem vec j v = Return (<[j := v]> vec).
Proof.
  intros Hj. unfold setitem. now destruct (Nat.ltb_spec j (length vec)); [|lia].
Qed.

Lemma store_tokens_length (j : nat) (xyz : list string) :
  forall vec : list value, length (store_tokens ev j xyz vec) = length vec.
Proof.
  induction xyz as [|t xyz IH]; intros vec; [reflexivity|]. cbn [store_tokens].
  rewrite IH. destruct (evaluated t); [|reflexivity].
  destruct (ev t); [apply length_insert | reflexivity..].
Qed.

Lemma store_entries_length (entries : list string) :
  forall (j : nat) (vec : list value),
    length (store_entries ev j entries vec) = length vec.
Proof.
  induction entries as [|e entries IH]; intros j vec; [reflexivity|].
  cbn [store_entries]. now rewrite IH, store_tokens_length.
Qed.

Lemma transvec_tokens_follows (j : nat) (xyz : list string) :
  forall vec : list value, (j < length vec)%nat ->
    follows (eval_in_order ev (List.filter evaluated xyz))
            (transvec_tokens (lift ev) j xyz vec) (store_tokens ev j xyz vec).
Proof.
  induction xyz as [|t xyz IH]; intros vec Hj.
  - reflexivity.
  - cbn [List.filter transvec_tokens store_tokens]. unfold transvec_token.
    fold (evaluated t). destruct (evaluated t).
    + cbn [eval_in_order negb]. unfold lift.
      destruct (ev t) as [v| |]; cbn [mbind outcome_bind fst snd];
        [|reflexivity..].
      rewrite setitem_lt by exact Hj. cbn [mbind outcome_bind].
      apply IH. now rewrite length_insert.
    + cbn [negb mbind outcome_bind]. now apply IH.
Qed.

Lemma follows_bind (r1 r2 : outcome unit) (m : outcome (list value))
    (k : list value -> outcome (list value)) (vec1 vec2 : list value) :
  follows r1 m vec1 -> follows r2 (k vec1) vec2 ->
  follows (_ ← r1; r2) (vec ← m; k vec) vec2.
Proof.
  destruct r1 as [[]| |]; cbn [follows mbind outcome_bind].
  - now intros ->.
  - now intros ->.
  - now intros ->.
Qed.

Lemma transvec_entries_follows (entries : list string) :
  forall (j : nat) (vec : list value),
    (j + length entries <= length vec)%nat ->
    follows (eval_in_order ev (evaluated_tokens entries))
            (transvec_entries (lift ev) j entries vec)
            (store_entries ev j entries vec).
Proof.
  induction entries as [|e entries IH]; intros j vec Hj.
  - reflexivity.
  - cbn [length] in Hj. unfold evaluated_tokens, all_tokens.
    cbn [fmap list_fmap concat transvec_entries store_entries].
    rewrite List.filter_app, eval_in_order_app.
    eapply follows_bind.
    + apply transvec_tokens_follows. lia.
    + apply IH. rewrite store_tokens_length. lia.
Qed.

Lemma stored_length (eqsite : list string) : length (stored ev eqsite) = 3%nat.
Proof. unfold stored. now rewrite store_entries_length. Qed.

Lemma transvec_entries_stored (eqsite : list string) :
  (length eqsite <= 3)%nat ->
  follows (eval_in_order ev (evaluated_tokens eqsite))
          (transvec_entries (lift ev) 0 eqsite [Num 0; Num 0; Num 0])
          (stored ev eqsite).
Proof. intros Hlen. apply transvec_entries_follows. cbn. lia. Qed.
End Transvec.

Lemma LatticeVector_init_cases (fuel : nat) (x y z : Q) :
  LatticeVector_init fuel [x; y; z] = Diverge \/
  exists x' y' z',
    LatticeVector_init fuel [x; y; z]
    = Return (mkLatticeVector [x'; y'; z'] default_interval).
Proof.
  unfold LatticeVector_init, Vector_init.
  cbn -[intocell default_interval Vector_improveprecision].
  destruct (intocell fuel _) as [t| |] eqn:E.
  - apply intocell_default_shape in E as (x' & y' & z' & ->).
    right. cbn -[default_interval improveprecision]. eauto.
  - now apply intocell_default_no_raise in E.
  - now left.
Qed.

Lemma length3_inv {A} (l : list A) :
  length l = 3%nat -> exists a b c, l = [a; b; c].
Proof. destruct l as [|a [|b [|c [|d l]]]]; try discriminate. eauto. Qed.

Lemma LatticeVector_init_twice (fuel : nat) (x y z : Q) :
  (fuel_bound [x; y; z] <= fuel)%nat ->
  exists t t',
    LatticeVector_init fuel [x; y; z] = Return t /\
    LatticeVector_init fuel (coords t) = Return t'.
Proof.
  intros Hb. apply fuel_bound_3 in Hb as (Hx & Hy & Hz & H2).
  destruct (LatticeVector_init_3 fuel x y z Hx Hy Hz)
    as (x' & y' & z' & Fx & Fy & Fz & E).
  pose proof (steps_unit_closed _ (improveprecision_unit _ (folded_unit _ _ Fx))).
  pose proof (steps_unit_closed _ (improveprecision_unit _ (folded_unit _ _ Fy))).
  pose proof (steps_unit_closed _ (improveprecision_unit _ (folded_unit _ _ Fz))).
  destruct (LatticeVector_init_3 fuel (improveprecision x' compeps)
              (improveprecision y' compeps) (improveprecision z' compeps))
    as (x2 & y2 & z2 & _ & _ & _ & E2); try lia.
  eexists _, _. split; [exact E|]. exact E2.
Qed.

(** The constructor on values: on three numbers it is the constructor on
    numbers; it raises nothing but TypeError, and raises it when one of
    three values is not a number. *)
Lemma LatticeVector_init_values_numbers (fuel : nat) (a b c : Q) :
  LatticeVector_init_values fuel [Num a; Num b; Num c]
  = LatticeVector_init fuel [a; b; c].
Proof.
  unfold LatticeVector_init_values, LatticeVector_init, Vector_init, intocell,
    intocell_from, intocell_values, range3.
  cbn -[intocell_component default_interval Vector_improveprecision].
  destruct (intocell_component fuel default_interval a) as [a'| |]; [|reflexivity..].
  cbn -[intocell_component default_interval Vector_improveprecision].
  destruct (intocell_component fuel default_interval b) as [b'| |]; [|reflexivity..].
  cbn -[intocell_component default_interval Vector_improveprecision].
  destruct (intocell_component fuel default_interval c) as [c'| |]; reflexivity.
Qed.

Lemma all_numbers_or_not (u v w : value) :
  (exists a b c, [u; v; w] = [Num a; Num b; Num c]) \/ NotNum ∈ [u; v; w].
Proof.
  destruct u as [a|]; [|right; apply list_elem_of_here].
  destruct v as [b|]; [|right; apply list_elem_of_further, list_elem_of_here].
  destruct w as [c|]; [left; eauto|].
  right. do 2 apply list_elem_of_further. apply list_elem_of_here.
Qed.

Lemma LatticeVector_init_values_raise (fuel : nat) (u v w : value) (e : exn) :
  LatticeVector_init_values fuel [u; v; w] = Raise e ->
  e = TypeError /\ NotNum ∈ [u; v; w].
Proof.
  destruct (all_numbers_or_not u v w) as [(a & b & c & [= -> -> ->])|Hin].
  { rewrite LatticeVector_init_values_numbers.
    destruct (LatticeVector_init_cases fuel a b c) as [-> |(? & ? & ? & ->)];
      discriminate. }
  intros H. split; [|exact Hin]. revert H.
  unfold LatticeVector_init_values, intocell_values, range3.
  cbn -[intocell_component default_interval Vector_improveprecision].
  destruct u as [a|]; cbn -[intocell_component default_interval Vector_improveprecision];
    [|congruence].
  destruct (intocell_component fuel default_interval a) as [a'|e'|] eqn:Ea;
    [|now apply intocell_component_default_no_raise in Ea|discriminate].
  cbn -[intocell_component default_interval Vector_improveprecision].
  destruct v as [b|]; cbn -[intocell_component default_interval Vector_improveprecision];
    [|congruence].
  destruct (intocell_component fuel default_interval b) as [b'|e'|] eqn:Eb;
    [|now apply intocell_component_default_no_raise in Eb|discriminate].
  cbn -[intocell_component default_interval Vector_improveprecision].
  destruct w as [c|]; cbn -[intocell_component default_interval Vector_improveprecision];
    [|congruence].
  destruct (intocell_component fuel default_interval c) as [c'|e'|] eqn:Ec;
    [|now apply intocell_component_default_no_raise in Ec|discriminate].
  discriminate.
Qed.

Lemma LatticeVector_init_values_return (fuel : nat) (u v w : value)
    (t : LatticeVector) :
  LatticeVector_init_values fuel [u; v; w] = Return t ->
  exists a b c, [u; v; w] = [Num a; Num b; Num c].
Proof.
  unfold LatticeVector_init_values, intocell_values, range3.
  cbn -[intocell_component default_interval Vector_improveprecision].
  destruct u as [a|]; cbn -[intocell_component default_interval Vector_improveprecision];
    [|discriminate].
  destruct (intocell_component fuel default_interval a) as [a'| |];
    cbn -[intocell_component default_interval Vector_improveprecision];
    [|discriminate..].
  destruct v as [b|]; cbn -[intocell_component default_interval Vector_improveprecision];
    [|discriminate].
  destruct (intocell_component fuel default_interval b) as [b'| |];
    cbn -[intocell_component default_interval Vector_improveprecision];
    [|discriminate..].
  destruct w as [c|]; cbn -[intocell_component default_interval Vector_improveprecision];
    [|discriminate].
  eauto.
Qed.

Lemma fuel_for_3 (u v w : value) (fuel : nat) :
  (fuel_for [u; v; w] <= fuel)%nat ->
  (value_steps u < fuel)%nat /\ (value_steps v < fuel)%nat /\
  (value_steps w < fuel)%nat.
Proof. unfold fuel_for. cbn [fmap list_fmap foldr]. lia. Qed.

Lemma LatticeVector_init_values_NotNum (fuel : nat) (u v w : value) :
  NotNum ∈ [u; v; w] -> (fuel_for [u; v; w] <= fuel)%nat ->
  LatticeVector_init_values fuel [u; v; w] = Raise TypeError.
Proof.
  intros Hin Hfuel. apply fuel_for_3 in Hfuel as (Hu & Hv & Hw).
  unfold LatticeVector_init_values, intocell_values, range3.
  cbn -[intocell_component default_interval Vector_improveprecision].
  destruct u as [a|]; cbn -[intocell_component default_interval Vector_improveprecision];
    [|reflexivity].
  destruct (intocell_component_default fuel a Hu) as (a' & -> & _).
  cbn -[intocell_component default_interval Vector_improveprecision].
  destruct v as [b|]; cbn -[intocell_component default_interval Vector_improveprecision];
    [|reflexivity].
  destruct (intocell_component_default fuel b Hv) as (b' & -> & _).
  cbn -[intocell_component default_interval Vector_improveprecision].
  destruct w as [c|]; cbn -[intocell_component default_interval Vector_improveprecision];
    [|reflexivity].
  exfalso. rewrite !elem_of_cons in Hin.
  destruct Hin as [H|[H|[H|H]]]; try discriminate. now apply elem_of_nil in H.
Qed.

Lemma real_numbers_3 (u v w : value) :
  Forall real_number [u; v; w] -> exists a b c, [u; v; w] = [Num a; Num b; Num c].
Proof.
  rewrite !Forall_cons. intros ((a & -> & _) & (b & -> & _) & (c & -> & _) & _). eauto.
Qed.

Lemma unrecognized_token_is_ignored :
  tokens "xx" = ["xx"%string] /\
  is_signed_variable "xx" = false /\ is_signed_literal "xx" = false /\
  SymmetryOperation_init (lift eval_literal) 1 ["xx"; "y"; "z"]%string
  = Return (mkSymmetryOperation ["xx"; "y"; "z"]%string
              [[0; 0; 0]; [0; 1; 0]; [0; 0; 1]]
              (mkLatticeVector [0; 0; 0] default_interval)).
Proof. split_and!; reflexivity. Qed.

(** Claim C5, amended (what makes the parser fail).  Tokens made of the
    characters + - x y z only are never evaluated and never refused; the
    others are handed to [eval] in order.  For an expression of at most
    three entries and evaluations without effect on the objects of the
    method, constructing a SymmetryOperation raises in two cases only: an
    evaluation raises, and the construction raises what it raises; or every
    evaluation returns and one of the values left in the vector is not a
    number, and the construction raises TypeError.  When the values left
    are real numbers of size below 2^53 the construction returns. *)
Theorem SymmetryOperation_init_fails_with_eval
    (ev : string -> outcome value) (eqsite : list string) :
  (length eqsite <= 3)%nat ->
  (forall e : exn,
     eval_in_order ev (evaluated_tokens eqsite) = Raise e ->
     forall fuel : nat, SymmetryOperation_init (lift ev) fuel eqsite = Raise e) /\
  (eval_in_order ev (evaluated_tokens eqsite) = Return tt ->
   NotNum ∈ stored ev eqsite ->
   forall fuel : nat, (fuel_for (stored ev eqsite) <= fuel)%nat ->
     SymmetryOperation_init (lift ev) fuel eqsite = Raise TypeError) /\
  (eval_in_order ev (evaluated_tokens eqsite) = Return tt ->
   Forall real_number (stored ev eqsite) ->
   forall fuel : nat, (fuel_for (stored ev eqsite) <= fuel)%nat ->
     returns (SymmetryOperation_init (lift ev) fuel eqsite)) /\
  (forall (fuel : nat) (e : exn),
     SymmetryOperation_init (lift ev) fuel eqsite = Raise e ->
     eval_in_order ev (evaluated_tokens eqsite) = Raise e \/
     (eval_in_order ev (evaluated_tokens eqsite) = Return tt /\
      e = TypeError /\ NotNum ∈ stored ev eqsite)) /\
  (evaluated_tokens eqsite = [] ->
   forall fuel : nat, (2 <= fuel)%nat ->
     returns (SymmetryOperation_init (lift ev) fuel eqsite)).
Proof.
  intros Hlen.
  destruct (rotmat_ok eqsite Hlen) as (rot & Hrot & _).
  pose proof (transvec_entries_stored ev eqsite Hlen) as Hvec.
  destruct (length3_inv _ (stored_length ev eqsite)) as (u & v & w & Hst).
  rewrite Hst in *.
  assert (forall e : exn,
            eval_in_order ev (evaluated_tokens eqsite) = Raise e ->
            forall fuel : nat,
              SymmetryOperation_init (lift ev) fuel eqsite = Raise e) as Hraise.
  { intros e He fuel. rewrite He in Hvec. cbn [follows] in Hvec.
    unfold SymmetryOperation_init, transvec. rewrite Hrot, Hvec. reflexivity. }
  assert (eval_in_order ev (evaluated_tokens eqsite) = Return tt ->
          Forall real_number [u; v; w] ->
          forall fuel : nat, (fuel_for [u; v; w] <= fuel)%nat ->
            returns (SymmetryOperation_init (lift ev) fuel eqsite)) as Hret.
  { intros He Hnum fuel Hfuel. rewrite He in Hvec. cbn [follows] in Hvec.
    apply real_numbers_3 in Hnum as (a & b & c & [= -> -> ->]).
    destruct (LatticeVector_init_twice fuel a b c Hfuel) as (t & t' & Ht & Ht').
    unfold SymmetryOperation_init, transvec. rewrite Hrot, Hvec.
    cbn [mbind outcome_bind]. rewrite LatticeVector_init_values_numbers, Ht.
    cbn [mbind outcome_bind]. rewrite Ht'. eexists. reflexivity. }
  split_and!; [exact Hraise | | exact Hret | |].
  - intros He Hin fuel Hfuel. rewrite He in Hvec. cbn [follows] in Hvec.
    unfold SymmetryOperation_init, transvec. rewrite Hrot, Hvec.
    cbn [mbind outcome_bind].
    now rewrite (LatticeVector_init_values_NotNum fuel u v w Hin Hfuel).
  - intros fuel e Hinit.
    destruct (eval_in_order ev (evaluated_tokens eqsite)) as [[]|e'|] eqn:He.
    + right. split; [reflexivity|]. cbn [follows] in Hvec.
      unfold SymmetryOperation_init, transvec in Hinit. rewrite Hrot, Hvec in Hinit.
      cbn [mbind outcome_bind] in Hinit.
      destruct (LatticeVector_init_values fuel [u; v; w]) as [t|e2|] eqn:E;
        cbn [mbind outcome_bind] in Hinit; [| |discriminate].
      * exfalso.
        destruct (LatticeVector_init_values_return fuel u v w t E)
          as (a & b & c & [= -> -> ->]).
        rewrite LatticeVector_init_values_numbers in E.
        destruct (LatticeVector_init_cases fuel a b c) as [E1|(a' & b' & c' & E1)];
          rewrite E1 in E; [discriminate|]. injection E as <-.
        cbn [coords] in Hinit.
        destruct (LatticeVector_init_cases fuel a' b' c') as [E'|(a2 & b2 & c2 & E')];
          rewrite E' in Hinit; discriminate.
      * injection Hinit as <-.
        now apply LatticeVector_init_values_raise in E.
    + left. rewrite (Hraise e' eq_refl fuel) in Hinit. congruence.
    + exfalso. cbn [follows] in Hvec.
      unfold SymmetryOperation_init, transvec in Hinit. rewrite Hrot, Hvec in Hinit.
      discriminate.
  - intros Hnone fuel Hfuel.
    assert (stored ev eqsite = [Num 0; Num 0; Num 0]) as Hzero.
    { clear -Hnone. unfold stored, evaluated_tokens, all_tokens in *.
      generalize 0%nat at 1. generalize [Num 0; Num 0; Num 0].
      induction eqsite as [|e es IH]; intros vec j; [reflexivity|].
      cbn [fmap list_fmap concat] in Hnone. rewrite List.filter_app in Hnone.
      apply app_eq_nil in Hnone as [He Hes]. cbn [store_entries].
      assert (store_tokens ev j (tokens e) vec = vec) as ->; [|now apply IH].
      revert He. generalize (tokens e). intros toks. revert vec.
      induction toks as [|t toks IHt]; intros vec Ht; [reflexivity|].
      cbn [List.filter] in Ht. cbn [store_tokens].
      destruct (evaluated t); [discriminate|]. now apply IHt. }
    rewrite Hzero in Hst. injection Hst as <- <- <-.
    apply Hret.
    + now rewrite Hnone.
    + repeat constructor; exists 0; (split; [reflexivity|]); reflexivity.
    + exact Hfuel.
Qed.

Lemma SymmetryOperation_init_fails_with_eval_witness :
  (forall fuel : nat,
     SymmetryOperation_init (lift eval_literal) fuel ["x+1/0"; "y"; "z"]%string
     = Raise ZeroDivisionError) /\
  (forall fuel : nat, (2 <= fuel)%nat ->
     SymmetryOperation_init (lift eval_literal) fuel ["x+1j"; "y"; "z"]%string
     = Raise TypeError) /\
  (forall fuel : nat, (2 <= fuel)%nat ->
     returns (SymmetryOperation_init (lift eval_literal) fuel
                ["-x+1/2"; "y"; "z"]%string)).
Proof.
  split_and!.
  - destruct (SymmetryOperation_init_fails_with_eval eval_literal
                ["x+1/0"; "y"; "z"]%string) as (Hraise & _); [cbn; lia|].
    apply Hraise. reflexivity.
  - destruct (SymmetryOperation_init_fails_with_eval eval_literal
                ["x+1j"; "y"; "z"]%string) as (_ & Htype & _); [cbn; lia|].
    intros fuel Hfuel. apply Htype.
    + reflexivity.
    + change (stored eval_literal ["x+1j"; "y"; "z"]%string)
        with [NotNum; Num 0; Num 0].
      apply list_elem_of_here.
    + exact Hfuel.
  - destruct (SymmetryOperation_init_fails_with_eval eval_literal
                ["-x+1/2"; "y"; "z"]%string) as (_ & _ & Hret & _); [cbn; lia|].
    intros fuel Hfuel. apply Hret.
    + reflexivity.
    + change (stored eval_literal ["-x+1/2"; "y"; "z"]%string)
        with [Num (1 * 1 / 2); Num 0; Num 0].
      repeat constructor; eexists; (split; [reflexivity|]); reflexivity.
    + exact Hfuel.
Defined.

(** * Further properties *)

(** ** Matrix algebra *)

Lemma mat_eq_entries (x00 x01 x02 x10 x11 x12 x20 x21 x22 : Q)
    (y00 y01 y02 y10 y11 y12 y20 y21 y22 : Q) :
  x00 == y00 -> x01 == y01 -> x02 == y02 ->
  x10 == y10 -> x11 == y11 -> x12 == y12 ->
  x20 == y20 -> x21 == y21 -> x22 == y22 ->
  mat_eq [[x00; x01; x02]; [x10; x11; x12]; [x20; x21; x22]]
         [[y00; y01; y02]; [y10; y11; y12]; [y20; y21; y22]].
Proof. intros. repeat constructor; assumption. Qed.

Section Matrices.
Variables (a00 a01 a02 a10 a11 a12 a20 a21 a22 : Q).

Local Abbreviation A := [[a00; a01; a02]; [a10; a11; a12]; [a20; a21; a22]].

(** Property X3.
    The identity matrix is neutral for the matrix product on both sides,
    and transforming a vector by it gives the vector back. *)
Theorem identity3_neutral (v0 v1 v2 : Q) :
  exists L R w,
    mmmult3 identity3 A = Return L /\ mat_eq L A /\
    mmmult3 A identity3 = Return R /\ mat_eq R A /\
    Vector_transform [v0; v1; v2] identity3 = Return w /\ vec_eq w [v0; v1; v2].
Proof.
  eexists _, _, _. split_and!; try reflexivity.
  - apply mat_eq_entries; ring.
  - apply mat_eq_entries; ring.
  - repeat constructor; ring.
Qed.

(** Property X7.
    [minv3] raises exactly on a singular matrix, and the exception is
    ZeroDivisionError. *)
Theorem minv3_raises_iff_singular (d : Q) :
  det3 A = Return d ->
  (raises (minv3 A) <-> d == 0) /\
  (d == 0 -> minv3 A = Raise ZeroDivisionError).
Proof.
  intros Hd. rewrite det3_rows in Hd. injection Hd as <-.
  unfold minv3. rewrite det3_rows. cbn [mbind outcome_bind].
  destruct (Qeq_bool _ 0) eqn:E.
  - apply Qeq_bool_iff in E. split; [|reflexivity].
    split; [intros _; exact E | intros _; eexists; reflexivity].
  - apply Qeq_bool_false in E. split; [|intros H; contradiction].
    split; [intros [e He]; discriminate | intros H; contradiction].
Qed.
End Matrices.

Lemma minv3_raises_iff_singular_witness :
  minv3 [[1; 2; 3]; [4; 5; 6]; [7; 8; 9]] = Raise ZeroDivisionError.
Proof.
  destruct (minv3_raises_iff_singular 1 2 3 4 5 6 7 8 9 0) as [_ H].
  - reflexivity.
  - apply H. reflexivity.
Defined.

(** Property X5.
    [transpose] on a 3x3 matrix returns the matrix with rows and columns
    exchanged, and transposing twice gives the matrix back.  On any list of
    rows it raises IndexError or returns a 3x3 matrix. *)
Theorem transpose_involutive (m : list (list Q)) :
  (shape33 m ->
   exists t, LatticeMatrix_transpose m = Return t /\
     (forall i j : nat, (i < 3)%nat -> (j < 3)%nat -> entry t i j = entry m j i) /\
     LatticeMatrix_transpose t = Return m) /\
  (LatticeMatrix_transpose m = Raise IndexError \/
   exists t, LatticeMatrix_transpose m = Return t /\ shape33 t).
Proof.
  split.
  - intros (a & b & c & d & e & f & g & h & i & ->).
    eexists. split; [reflexivity|]. split; [|reflexivity].
    intros [|[|[|n]]] [|[|[|k]]] Hn Hk; try lia; reflexivity.
  - destruct m as [|[|a [|b [|c r0]]] [|[|d [|e [|f r1]]] [|[|g [|h [|i r2]]] m]]];
      try (left; reflexivity);
      right; eexists; (split; [reflexivity|]); unfold shape33; eauto 12.
Qed.

(** ** Vectors: equality, order, arithmetic *)

Lemma Qabs_minus_swap (x y : Q) : Qabs (x - y) == Qabs (y - x).
Proof.
  rewrite <- (Qabs_opp (y - x)). apply Qabs_wd. ring.
Qed.

Lemma Qlt_bool_comp (x x' y y' : Q) :
  x == x' -> y == y' -> Qlt_bool x y = Qlt_bool x' y'.
Proof.
  intros Hx Hy. unfold Qlt_bool. f_equal.
  destruct (Qle_bool y x) eqn:E, (Qle_bool y' x') eqn:E'; try reflexivity.
  - apply Qle_bool_iff in E. apply Qle_bool_false in E'. rewrite Hx, Hy in E. lra.
  - apply Qle_bool_iff in E'. apply Qle_bool_false in E. rewrite Hx, Hy in E. lra.
Qed.

Lemma getitem_cases {A} (l : list A) (i : nat) :
  (exists x, l !! i = Some x /\ getitem l i = Return x) \/
  (l !! i = None /\ getitem l i = Raise IndexError).
Proof. unfold getitem. destruct (l !! i); eauto. Qed.

Lemma Vector_eq_from_sym (ixs : list nat) (a b : list Q) :
  Vector_eq_from ixs a b = Vector_eq_from ixs b a.
Proof.
  induction ixs as [|i ixs IH]; [reflexivity|]. cbn [Vector_eq_from].
  destruct (getitem_cases a i) as [(x & _ & ->)|[_ ->]],
           (getitem_cases b i) as [(y & _ & ->)|[_ ->]];
    cbn [mbind outcome_bind]; try reflexivity.
  rewrite (Qlt_bool_comp compeps compeps (Qabs (x - y)) (Qabs (y - x)))
    by (reflexivity || apply Qabs_minus_swap).
  now rewrite IH.
Qed.

(** Property X9.
    Equality of vectors is reflexive and symmetric, and it is not
    transitive: it is a comparison within a tolerance. *)
Theorem Vector_eq_tolerance_relation :
  (forall a b : list Q, Vector_eq a b = Vector_eq b a) /\
  (forall x y z : Q, Vector_eq [x; y; z] [x; y; z] = Return true) /\
  (Vector_eq [0; 0; 0] [15 # 100000; 0; 0] = Return true /\
   Vector_eq [15 # 100000; 0; 0] [3 # 10000; 0; 0] = Return true /\
   Vector_eq [0; 0; 0] [3 # 10000; 0; 0] = Return false).
Proof.
  split_and!; try reflexivity.
  - intros a b. apply Vector_eq_from_sym.
  - intros x y z.
    apply Vector_eq_close; apply Qabs_Qlt_condition; unfold compeps; split; lra.
Qed.

Lemma Vector_lt_true (a b : list Q) :
  Vector_lt a b = Return true ->
  exists sa sb, sqnorm a = Return sa /\ sqnorm b = Return sb /\ sa < sb.
Proof.
  unfold Vector_lt. intros H.
  apply bind_Return in H as (sa & Ha & H). apply bind_Return in H as (sb & Hb & H).
  injection H as H. apply Qlt_bool_iff in H. eauto.
Qed.

(** Property X10.
    [<] on vectors is a strict order: no vector is less than itself, and
    the comparison is transitive (it compares the squared lengths). *)
Theorem Vector_lt_strict_order :
  (forall v : list Q, Vector_lt v v <> Return true) /\
  (forall a b c : list Q,
     Vector_lt a b = Return true -> Vector_lt b c = Return true ->
     Vector_lt a c = Return true) /\
  (forall a b : list Q,
     Vector_lt a b = Return true -> Vector_lt b a = Return false).
Proof.
  split_and!.
  - intros v (sa & sb & Ha & Hb & Hlt)%Vector_lt_true.
    rewrite Ha in Hb. injection Hb as <-. lra.
  - intros a b c (sa & sb & Ha & Hb & Hab)%Vector_lt_true
                 (sb' & sc & Hb' & Hc & Hbc)%Vector_lt_true.
    rewrite Hb in Hb'. injection Hb' as <-.
    unfold Vector_lt. rewrite Ha, Hc. cbn. f_equal. apply Qlt_bool_iff. lra.
  - intros a b (sa & sb & Ha & Hb & Hab)%Vector_lt_true.
    unfold Vector_lt. rewrite Ha, Hb. cbn. f_equal. apply Qlt_bool_false. lra.
Qed.

Lemma Vector_lt_strict_order_witness :
  Vector_lt [0; 0; 0] [1; 1; 1] = Return true /\
  Vector_lt [1; 1; 1] [0; 0; 0] = Return false.
Proof.
  destruct Vector_lt_strict_order as (_ & Htrans & Hasym). split.
  - apply (Htrans _ [1 # 2; 0; 0]); reflexivity.
  - apply Hasym. reflexivity.
Defined.

(** Property X11.
    Addition reads the components 0, 1 and 2 of both operands: it raises
    IndexError exactly when one of them has fewer than three components,
    and what it returns has three components, whatever the operands had. *)
Theorem Vector_add_three_components (a b : list Q) :
  (Vector_add a b = Raise IndexError <->
   (length a < 3)%nat \/ (length b < 3)%nat) /\
  (forall r, Vector_add a b = Return r -> length r = 3%nat) /\
  ((3 <= length a)%nat -> (3 <= length b)%nat -> returns (Vector_add a b)).
Proof.
  destruct a as [|a0 [|a1 [|a2 a]]], b as [|b0 [|b1 [|b2 b]]];
    cbn [length]; (split_and!; [split|..]);
    try (intros; lia); try (intros; discriminate);
    try (intros; reflexivity); try (intros; left; lia); try (intros; right; lia).
  - intros r H. injection H as <-. reflexivity.
  - intros _ _. eexists. reflexivity.
Qed.

Lemma Vector_add_three_components_witness :
  returns (Vector_add [1; 2; 3; 4] [1; 1; 1]) /\
  Vector_add [1; 2] [1; 1; 1] = Raise IndexError.
Proof.
  split.
  - apply (Vector_add_three_components [1; 2; 3; 4] [1; 1; 1]); cbn; lia.
  - apply (Vector_add_three_components [1; 2] [1; 1; 1]). left. cbn. lia.
Defined.

(** ** Snapping and folding *)

Lemma improveprecision_in_cases (fl : list Q) (x eps : Q) :
  (improveprecision_in fl x eps = x /\
   Forall (fun f => eps < Qabs (x - f)) fl) \/
  (In (improveprecision_in fl x eps) fl /\
   Qabs (x - improveprecision_in fl x eps) <= eps).
Proof.
  induction fl as [|f fl IH]; cbn [improveprecision_in].
  - left. split; [reflexivity | constructor].
  - destruct (Qle_bool (Qabs (x - f)) eps) eqn:E.
    + right. apply Qle_bool_iff in E. split; [now left | exact E].
    + apply Qle_bool_false in E. destruct IH as [[-> Hall]|[Hin Hd]].
      * left. split; [reflexivity | now constructor].
      * right. split; [now right | exact Hd].
Qed.

Ltac floatlist_tests :=
  repeat match goal with
  | |- context [Qle_bool (Qabs ?d) ?e] =>
      let E := fresh "E" in
      destruct (Qle_bool (Qabs d) e) eqn:E;
      [apply Qle_bool_iff, Qabs_Qle_condition in E
      |apply Qle_bool_false in E;
       try (exfalso; revert E; apply Qle_not_lt, Qabs_Qle_condition; split; lra)];
      try lra; try reflexivity
  end.

Lemma improveprecision_fixes_floatlist (f eps : Q) :
  0 <= eps -> eps < 1 # 12 -> In f floatlist -> improveprecision f eps = f.
Proof.
  intros H0 H1 Hin. unfold floatlist in Hin. cbn [In] in Hin.
  unfold improveprecision, floatlist, improveprecision_in.
  unfold third, half, fourth, sixth, one, two, four, six, zero, sqrt2 in *.
  change (2 * (1 / 3)) with (2 # 3) in *. change (5 * (1 / 6)) with (5 # 6) in *.
  change (1 / 3) with (1 # 3) in *. change (1 / 2) with (1 # 2) in *.
  change (1 / 4) with (1 # 4) in *. change (1 / 6) with (1 # 6) in *.
  repeat destruct Hin as [<-|Hin]; [..|destruct Hin]; floatlist_tests.
Qed.

Lemma improveprecision_close (x eps : Q) :
  0 <= eps -> Qabs (x - improveprecision x eps) <= eps.
Proof.
  intros H0.
  pose proof (improveprecision_in_cases floatlist x eps) as H.
  fold (improveprecision x eps) in H. destruct H as [[E _]|[_ Hd]]; [|exact Hd].
  rewrite E. apply Qabs_Qle_condition. split; lra.
Qed.

(** Property X14.
    [improveprecision] moves a number by at most [eps], to a number of
    [floatlist] or not at all, and applying it twice is applying it once
    (the numbers of [floatlist] are at least 1/12 apart). *)
Theorem improveprecision_within_and_idempotent (x eps : Q) :
  0 <= eps ->
  Qabs (x - improveprecision x eps) <= eps /\
  (improveprecision x eps = x \/ In (improveprecision x eps) floatlist) /\
  (eps < 1 # 12 ->
   improveprecision (improveprecision x eps) eps = improveprecision x eps).
Proof.
  intros H0.
  pose proof (improveprecision_in_cases floatlist x eps) as H.
  fold (improveprecision x eps) in H. destruct H as [[E _]|[Hin Hd]].
  - rewrite !E. split_and!.
    + apply Qabs_Qle_condition. split; lra.
    + now left.
    + reflexivity.
  - split_and!; [exact Hd | now right |].
    intros H1. now apply improveprecision_fixes_floatlist.
Qed.

Lemma improveprecision_within_and_idempotent_witness :
  Qabs ((333334 # 1000000) - improveprecision (333334 # 1000000) compeps) <= compeps /\
  improveprecision (improveprecision (333334 # 1000000) compeps) compeps
  = improveprecision (333334 # 1000000) compeps.
Proof.
  destruct (improveprecision_within_and_idempotent (333334 # 1000000) compeps)
    as (H1 & _ & H2).
  - discriminate.
  - split; [exact H1 | apply H2; reflexivity].
Defined.

Lemma intocell_component_pair_S (fuel : nat) (lo hi x : Q) :
  intocell_component (S fuel) [lo; hi] x =
  if Qle_bool lo x then
    if Qlt_bool x hi then Return x
    else intocell_component fuel [lo; hi] (x - copysign 1 x)
  else intocell_component fuel [lo; hi] (x - copysign 1 x).
Proof. reflexivity. Qed.

Lemma copysign_nonneg (x : Q) : 0 <= x -> copysign 1 x = 1.
Proof. intros H. unfold copysign. apply Qle_bool_iff in H. now rewrite H. Qed.

Lemma copysign_neg (x : Q) : x < 0 -> copysign 1 x = - (1).
Proof. intros H. unfold copysign. apply Qle_bool_false in H. now rewrite H. Qed.

Lemma Qfloor_minus_one (x : Q) : Qfloor (x - 1) = (Qfloor x - 1)%Z.
Proof.
  transitivity (Qfloor (x + inject_Z (-1))); [|rewrite Qfloor_shift; lia].
  apply Qfloor_comp. change (inject_Z (-1)) with (- (1)). lra.
Qed.

Lemma Qfloor_plus_one (x : Q) : Qfloor (x - - (1)) = (Qfloor x + 1)%Z.
Proof.
  transitivity (Qfloor (x + inject_Z 1)); [|rewrite Qfloor_shift; lia].
  apply Qfloor_comp. change (inject_Z 1) with 1. lra.
Qed.

Lemma Qfloor_pos (x : Q) : 1 <= x -> (1 <= Qfloor x)%Z.
Proof. intros H. change 1%Z with (Qfloor 1). now apply Qfloor_resp_le. Qed.

Lemma Qfloor_neg (x : Q) : x < 0 -> (Qfloor x <= -1)%Z.
Proof.
  intros H. pose proof (Qfloor_le x) as Hf.
  assert (inject_Z (Qfloor x) < inject_Z 0) as H' by (change (inject_Z 0) with 0; lra).
  rewrite <- Zlt_Qlt in H'. lia.
Qed.

Lemma intocell_component_half (fuel : nat) (x : Q) :
  (steps_half x < fuel)%nat ->
  exists y, intocell_component fuel half_interval x = Return y /\
            - (1 # 2) <= y /\ y < 1 # 2 /\
            y == x - inject_Z (Qfloor (x + (1 # 2))).
Proof.
  revert x. induction fuel as [|fuel IH]; intros x Hfuel; [lia|].
  unfold steps_half in *. unfold half_interval. rewrite intocell_component_pair_S.
  fold half_interval.
  destruct (Qle_bool (- (1 # 2)) x) eqn:Hlo.
  - destruct (Qlt_bool x (1 # 2)) eqn:Hhi; qbool.
    + exists x. split; [reflexivity|].
      assert (Qfloor (x + (1 # 2)) = 0%Z) as ->
        by (apply Qfloor_unique; [change (0 <= x + (1 # 2)) | change (x + (1 # 2) < 1)]; lra).
      change (inject_Z 0) with 0. split_and!; lra.
    + rewrite copysign_nonneg by lra.
      assert (Qfloor (x - 1 + (1 # 2)) = (Qfloor (x + (1 # 2)) - 1)%Z) as Hfl.
      { rewrite <- Qfloor_minus_one. apply Qfloor_comp. ring. }
      pose proof (Qfloor_pos (x + (1 # 2)) ltac:(lra)) as Hpos.
      destruct (IH (x - 1)) as (y & Hy & H0 & H1 & Heq); [rewrite Hfl; lia|].
      exists y. split; [exact Hy|]. split_and!; try assumption.
      rewrite Heq, Hfl. unfold Z.sub. rewrite inject_Z_plus, inject_Z_opp.
      change (inject_Z 1) with 1.
      generalize (inject_Z (Qfloor (x + (1 # 2)))). intros; lra.
  - qbool. rewrite copysign_neg by lra.
    assert (Qfloor (x - - (1) + (1 # 2)) = (Qfloor (x + (1 # 2)) + 1)%Z) as Hfl.
    { rewrite <- Qfloor_plus_one. apply Qfloor_comp. ring. }
    pose proof (Qfloor_neg (x + (1 # 2)) ltac:(lra)) as Hneg.
    destruct (IH (x - - (1))) as (y & Hy & H0 & H1 & Heq); [rewrite Hfl; lia|].
    exists y. split; [exact Hy|]. split_and!; try assumption.
    rewrite Heq, Hfl. rewrite inject_Z_plus. change (inject_Z 1) with 1.
    generalize (inject_Z (Qfloor (x + (1 # 2)))). intros; lra.
Qed.

(** Property X15.
    With the interval [-1/2,1/2) the loop of [intocell] stops, and leaves
    every component in the interval, a whole number of cells away from
    where it was. *)
Theorem intocell_half_interval (fuel : nat) (x y z : Q) :
  (steps_half x < fuel)%nat -> (steps_half y < fuel)%nat ->
  (steps_half z < fuel)%nat ->
  exists x' y' z',
    intocell fuel (mkLatticeVector [x; y; z] half_interval)
    = Return (mkLatticeVector [x'; y'; z'] half_interval) /\
    in_cell (mkLatticeVector [x'; y'; z'] half_interval) /\
    congruent x x' /\ congruent y y' /\ congruent z z'.
Proof.
  intros Hx Hy Hz.
  destruct (intocell_component_half fuel x Hx) as (x' & Ex & Lx & Ux & Cx).
  destruct (intocell_component_half fuel y Hy) as (y' & Ey & Ly & Uy & Cy).
  destruct (intocell_component_half fuel z Hz) as (z' & Ez & Lz & Uz & Cz).
  exists x', y', z'. split_and!.
  - unfold intocell, intocell_from, range3. cbn -[half_interval].
    rewrite Ex. cbn -[half_interval]. rewrite Ey. cbn -[half_interval].
    rewrite Ez. reflexivity.
  - apply in_cell_triple. unfold half_interval. rewrite !in_interval_pair. auto.
  - exists (- Qfloor (x + (1 # 2)))%Z. rewrite inject_Z_opp, Cx. ring.
  - exists (- Qfloor (y + (1 # 2)))%Z. rewrite inject_Z_opp, Cy. ring.
  - exists (- Qfloor (z + (1 # 2)))%Z. rewrite inject_Z_opp, Cz. ring.
Qed.

Lemma intocell_half_interval_witness :
  exists x' y' z',
    intocell 3 (mkLatticeVector [3 # 4; - (7 # 4); 1 # 2] half_interval)
    = Return (mkLatticeVector [x'; y'; z'] half_interval) /\
    in_cell (mkLatticeVector [x'; y'; z'] half_interval) /\
    congruent (3 # 4) x' /\ congruent (- (7 # 4)) y' /\ congruent (1 # 2) z'.
Proof.
  apply (intocell_half_interval 3 (3 # 4) (- (7 # 4)) (1 # 2)); vm_compute; lia.
Defined.

Lemma intocell_component_cycles (fuel : nat) (lo hi x : Q) :
  (0 <= x /\ x < 1 /\ x < lo) \/ (- (1) <= x /\ x < 0 /\ x + 1 < lo) ->
  intocell_component fuel [lo; hi] x = Diverge.
Proof.
  revert x. induction fuel as [|fuel IH]; intros x Hx; [reflexivity|].
  rewrite intocell_component_pair_S.
  assert (Qle_bool lo x = false) as -> by (apply Qle_bool_false; lra).
  apply IH. destruct Hx as [(H0 & H1 & Hlo)|(H0 & H1 & Hlo)].
  - right. rewrite copysign_nonneg by assumption. split_and!; lra.
  - left. rewrite copysign_neg by assumption. split_and!; lra.
Qed.

(** Property X16.
    When the interval begins above a component that lies in [0,1), the loop
    of [intocell] never stops: the component goes to and fro between two
    values below the interval. *)
Theorem intocell_does_not_terminate (fuel : nat) (lo hi x y z : Q) :
  0 <= x -> x < 1 -> x < lo ->
  intocell fuel (mkLatticeVector [x; y; z] [lo; hi]) = Diverge.
Proof.
  intros H0 H1 Hlo. unfold intocell, intocell_from, range3.
  cbn [coords interval getitem lookup list_lookup mbind outcome_bind].
  rewrite intocell_component_cycles by (left; auto). reflexivity.
Qed.

Lemma intocell_does_not_terminate_witness :
  intocell 1000 (mkLatticeVector [1 # 2; 0; 0] [1; 2]) = Diverge.
Proof.
  apply intocell_does_not_terminate; [discriminate | reflexivity | reflexivity].
Defined.

(** Property X17.
    The constructor returns, on every triple of numbers of size below 2^53,
    a vector with the interval [0,1] whose components lie between 0 and 1,
    both included, each within [compeps] of the fractional part, modulo one,
    of what was given. *)
Theorem LatticeVector_init_closed_cell (fuel : nat) (x y z : Q) :
  unit_steps x -> unit_steps y -> unit_steps z ->
  (fuel_bound [x; y; z] <= fuel)%nat ->
  exists x' y' z',
    LatticeVector_init fuel [x; y; z]
    = Return (mkLatticeVector [x'; y'; z'] default_interval) /\
    (unit_closed x' /\ near_fractional_part x x') /\
    (unit_closed y' /\ near_fractional_part y y') /\
    (unit_closed z' /\ near_fractional_part z z').
Proof.
  intros _ _ _ Hb. apply fuel_bound_3 in Hb as (Hx & Hy & Hz & _).
  destruct (LatticeVector_init_3 fuel x y z Hx Hy Hz)
    as (x' & y' & z' & Fx & Fy & Fz & E).
  eexists _, _, _. split; [exact E|].
  assert (forall a a', folded a a' ->
            unit_closed (improveprecision a' compeps) /\
            near_fractional_part a (improveprecision a' compeps))
    as Hone.
  { intros a a' Ha. split; [apply improveprecision_unit; eapply folded_unit; eassumption|].
    left. destruct Ha as (_ & _ & <-).
    apply improveprecision_close. discriminate. }
  auto.
Qed.

Lemma LatticeVector_init_closed_cell_witness :
  exists x' y' z',
    LatticeVector_init 5 [9999 # 10000; - (7 # 3); 5 # 2]
    = Return (mkLatticeVector [x'; y'; z'] default_interval) /\
    (unit_closed x' /\ near_fractional_part (9999 # 10000) x') /\
    (unit_closed y' /\ near_fractional_part (- (7 # 3)) y') /\
    (unit_closed z' /\ near_fractional_part (5 # 2) z').
Proof.
  apply (LatticeVector_init_closed_cell 5 (9999 # 10000) (- (7 # 3)) (5 # 2));
    first [reflexivity | vm_compute; lia].
Defined.

(** ** [putincell] and [latvectadd] *)

Lemma putincell_raise_spec (fuel : nat) (x : Q) :
  (steps x < fuel)%nat ->
  exists y, putincell_raise fuel x = Return y /\
            0 <= y /\ (0 <= x -> y = x) /\ (x < 0 -> y < 1) /\ congruent x y.
Proof.
  revert x. induction fuel as [|fuel IH]; intros x Hfuel; [lia|].
  unfold steps in *. cbn [putincell_raise].
  destruct (Qlt_bool x 0) eqn:E; qbool.
  - pose proof (Qfloor_neg x E) as Hneg.
    assert (Qfloor (x + 1) = (Qfloor x + 1)%Z) as Hfl.
    { rewrite <- (Qfloor_shift x 1). reflexivity. }
    destruct (IH (x + 1)) as (y & Hy & H0 & Hsame & Hlt & (k & Hk)); [rewrite Hfl; lia|].
    exists y. split; [exact Hy|]. split_and!; try assumption.
    + intros H. lra.
    + intros _. destruct (Qlt_le_dec (x + 1) 0) as [Hn|Hp]; [auto|].
      rewrite (Hsame Hp). lra.
    + exists (k + 1)%Z. rewrite Hk, inject_Z_plus. change (inject_Z 1) with 1. ring.
  - exists x. split; [reflexivity|]. split_and!; try assumption; try reflexivity.
    + intros H. lra.
    + exists 0%Z. change (inject_Z 0) with 0. ring.
Qed.

Lemma Qceiling_minus_one (x : Q) : Qceiling (x - 1) = (Qceiling x - 1)%Z.
Proof.
  unfold Qceiling.
  assert (Qfloor (- (x - 1)) = (Qfloor (- x) + 1)%Z) as ->; [|lia].
  rewrite <- (Qfloor_shift (- x) 1). apply Qfloor_comp.
  change (inject_Z 1) with 1. ring.
Qed.

Lemma Qceiling_pos (x : Q) : 0 < x -> (1 <= Qceiling x)%Z.
Proof.
  intros H. pose proof (Qle_ceiling x) as Hc.
  assert (inject_Z 0 < inject_Z (Qceiling x)) as H'
    by (change (inject_Z 0) with 0; lra).
  rewrite <- Zlt_Qlt in H'. lia.
Qed.

Lemma putincell_lower_spec (fuel : nat) (eps x : Q) :
  (lower_steps eps x < fuel)%nat ->
  exists y, putincell_lower fuel eps x = Return y /\
            y <= 1 - eps /\ (x <= 1 - eps -> y = x) /\
            (1 - eps < x -> - eps < y) /\ congruent x y.
Proof.
  revert x. induction fuel as [|fuel IH]; intros x Hfuel; [lia|].
  unfold lower_steps in *. cbn [putincell_lower].
  destruct (Qlt_bool (1 - eps) x) eqn:E; qbool.
  - pose proof (Qceiling_pos (x - (1 - eps)) ltac:(lra)) as Hpos.
    assert (Qceiling (x - 1 - (1 - eps)) = (Qceiling (x - (1 - eps)) - 1)%Z) as Hc.
    { rewrite <- Qceiling_minus_one. unfold Qceiling. f_equal.
      apply Qfloor_comp. ring. }
    destruct (IH (x - 1)) as (y & Hy & Hle & Hsame & Hgt & (k & Hk)); [rewrite Hc; lia|].
    exists y. split; [exact Hy|]. split_and!; try assumption.
    + intros H. lra.
    + intros _. destruct (Qlt_le_dec (1 - eps) (x - 1)) as [Hn|Hp]; [auto|].
      rewrite (Hsame Hp). lra.
    + exists (k - 1)%Z. rewrite Hk. unfold Z.sub.
      rewrite inject_Z_plus, inject_Z_opp. change (inject_Z 1) with 1. ring.
  - exists x. split; [reflexivity|]. split_and!; try assumption; try reflexivity.
    + intros H. lra.
    + exists 0%Z. change (inject_Z 0) with 0. ring.
Qed.

Lemma putincell_component (fuel : nat) (eps x : Q) :
  (putincell_fuel eps x <= fuel)%nat ->
  exists y,
    (x1 ← putincell_raise fuel x; putincell_lower fuel eps x1) = Return y /\
    put_in_cell eps x y.
Proof.
  unfold putincell_fuel. intros Hfuel.
  destruct (putincell_raise_spec fuel x) as (x1 & E1 & H0 & Hsame & Hlt & Hc1); [lia|].
  assert (x1 <= (if Qle_bool 1 x then x else 1)) as Hmax.
  { destruct (Qle_bool 1 x) eqn:E; qbool.
    - rewrite Hsame by lra. lra.
    - destruct (Qlt_le_dec x 0) as [Hn|Hp]; [specialize (Hlt Hn); lra|].
      rewrite (Hsame Hp). lra. }
  assert (lower_steps eps x1 <= lower_steps eps (if Qle_bool 1 x then x else 1))%nat
    as Hsteps.
  { unfold lower_steps.
    assert (Qceiling (x1 - (1 - eps))
            <= Qceiling ((if Qle_bool 1 x then x else 1) - (1 - eps)))%Z
      by (apply Qceiling_resp_le; lra).
    lia. }
  destruct (putincell_lower_spec fuel eps x1) as (y & E2 & Hle & Hsame2 & Hgt & Hc2); [lia|].
  exists y. rewrite E1. cbn [mbind outcome_bind]. split; [exact E2|].
  split_and!; [exact Hle | |].
  - destruct (Qlt_le_dec (1 - eps) x1) as [Hn|Hp]; [right; auto|].
    left. rewrite (Hsame2 Hp). exact H0.
  - intros Hx0 Hx1. rewrite <- (Hsame Hx0). apply Hsame2.
    rewrite (Hsame Hx0). exact Hx1.
Qed.

(** Property X18.
    [putincell] stops on coordinates of size below 2^53, whatever the
    epsilon.  It leaves each coordinate at most [1 - eps], and either not
    negative or above [- eps]: the second loop can take a coordinate just
    below 1 to just below 0.  A coordinate that was in [[0, 1 - eps]] is
    left as it was. *)
Theorem putincell_lands (fuel : nat) (eps x y z : Q) :
  unit_steps x -> unit_steps y -> unit_steps z ->
  (putincell_fuel eps x <= fuel)%nat -> (putincell_fuel eps y <= fuel)%nat ->
  (putincell_fuel eps z <= fuel)%nat ->
  exists x' y' z',
    putincell fuel [x; y; z] eps = Return [x'; y'; z'] /\
    put_in_cell eps x x' /\ put_in_cell eps y y' /\ put_in_cell eps z z'.
Proof.
  intros _ _ _ Hx Hy Hz.
  destruct (putincell_component fuel eps x Hx) as (x' & Ex & Px).
  destruct (putincell_component fuel eps y Hy) as (y' & Ey & Py).
  destruct (putincell_component fuel eps z Hz) as (z' & Ez & Pz).
  exists x', y', z'. split; [|auto].
  apply bind_Return in Ex as (x1 & Ex1 & Ex2).
  apply bind_Return in Ey as (y1 & Ey1 & Ey2).
  apply bind_Return in Ez as (z1 & Ez1 & Ez2).
  unfold putincell, putincell_from, range3.
  cbn [getitem lookup list_lookup mbind outcome_bind].
  rewrite Ex1. cbn [mbind outcome_bind]. rewrite Ex2. cbn.
  rewrite Ey1. cbn [mbind outcome_bind]. rewrite Ey2. cbn.
  rewrite Ez1. cbn [mbind outcome_bind]. rewrite Ez2. reflexivity.
Qed.

Lemma putincell_lands_witness :
  exists x' y' z',
    putincell 4 [9999999 # 10000000; - (7 # 3); 1 # 2] (1 # 1000000)
    = Return [x'; y'; z'] /\
    put_in_cell (1 # 1000000) (9999999 # 10000000) x' /\
    put_in_cell (1 # 1000000) (- (7 # 3)) y' /\
    put_in_cell (1 # 1000000) (1 # 2) z'.
Proof.
  apply (putincell_lands 4 (1 # 1000000) (9999999 # 10000000) (- (7 # 3)) (1 # 2));
    first [reflexivity | vm_compute; lia].
Defined.





(** ** Strings and charges *)

Lemma append_cons (a : ascii) (s r : string) : String a s +:+ r = String a (s +:+ r).
Proof. reflexivity. Qed.

Lemma split_on_head (sep : ascii) (s : string) :
  exists h t, split_on sep s = h :: t.
Proof.
  destruct s as [|a s]; cbn [split_on]; [eauto|].
  destruct (Ascii.eqb a sep); [eauto|]. destruct (split_on sep s); eauto.
Qed.

Lemma split_on_no_sep (sep : ascii) (s : string) :
  has_char sep s = false -> split_on sep s = [s].
Proof.
  induction s as [|a s IH]; [reflexivity|]. cbn [has_char split_on].
  destruct (Ascii.eqb a sep); [discriminate|]. cbn [orb]. intros H.
  now rewrite (IH H).
Qed.

Lemma split_on_first (sep : ascii) (p r : string) :
  has_char sep p = false ->
  exists t, split_on sep (p +:+ String sep r) = p :: t.
Proof.
  induction p as [|a p IH]; cbn [has_char].
  - intros _. change (EmptyString +:+ String sep r) with (String sep r).
    cbn [split_on]. rewrite Ascii.eqb_refl. eauto.
  - destruct (Ascii.eqb a sep) eqn:E; [discriminate|]. cbn [orb]. intros H.
    destruct (IH H) as (t & Ht). rewrite append_cons. cbn [split_on].
    rewrite E, Ht. eauto.
Qed.

(** Property X20.
    [removeerror] gives back a number that carries no parenthesis and cuts
    an error estimate, from the first opening parenthesis on, off a number
    that carries one; it never fails. *)
Theorem removeerror_strips_estimate (num err : string) :
  has_char "(" num = false ->
  removeerror num = Return num /\
  removeerror (num +:+ String "(" err) = Return num.
Proof.
  intros H. unfold removeerror. split.
  - now rewrite split_on_no_sep.
  - destruct (split_on_first "(" num err H) as (t & ->). reflexivity.
Qed.

Lemma removeerror_strips_estimate_witness :
  removeerror "3.28" = Return "3.28"%string /\
  removeerror "3.28(5)" = Return "3.28"%string.
Proof. apply (removeerror_strips_estimate "3.28" "5)"). reflexivity. Defined.

Lemma join_cons (a : ascii) (tok : string) (rest : list string) :
  join (String a tok :: rest) = String a (join (tok :: rest)).
Proof. unfold join. cbn [String.concat]. destruct rest; reflexivity. Qed.

Lemma join_single (a : ascii) (rest : list string) :
  join (String a EmptyString :: rest) = String a (join rest).
Proof. unfold join. cbn [String.concat]. destruct rest; reflexivity. Qed.

Lemma join_split (s : string) : join (split s) = remove_spaces s.
Proof.
  induction s as [|a s IH]; [reflexivity|]. cbn [split remove_spaces].
  destruct (Ascii.is_space a) eqn:Ea; [exact IH|].
  destruct s as [|b s]; [reflexivity|].
  destruct (Ascii.is_space b) eqn:Eb.
  - rewrite join_single. now rewrite IH.
  - destruct (split (String b s)) as [|tok rest] eqn:Es.
    + exfalso. revert Es. cbn [split]. rewrite Eb.
      destruct s as [|c s]; [discriminate|].
      destruct (Ascii.is_space c); [discriminate|].
      destruct (split (String c s)); discriminate.
    + rewrite join_cons. now rewrite IH.
Qed.

Lemma remove_spaces_app (s r : string) :
  remove_spaces (s +:+ r) = remove_spaces s +:+ remove_spaces r.
Proof.
  induction s as [|a s IH]; [reflexivity|]. rewrite append_cons.
  cbn [remove_spaces]. destruct (Ascii.is_space a); [exact IH|].
  rewrite append_cons. now rewrite IH.
Qed.

Lemma remove_spaces_replace (c : ascii) (s : string) :
  Ascii.is_space c = false ->
  remove_spaces (replace c (String " " (String c EmptyString)) s) = remove_spaces s.
Proof.
  intros Hc. induction s as [|a s IH]; [reflexivity|]. cbn [replace].
  destruct (Ascii.eqb_spec a c) as [->|Hne].
  - rewrite remove_spaces_app. cbn [remove_spaces]. rewrite Hc.
    change (Ascii.is_space " ") with true. cbn iota.
    change (String c EmptyString +:+ ?r) with (String c r). now rewrite IH.
  - cbn [remove_spaces]. now rewrite IH.
Qed.

(** Property X21.
    The tokens of an expression, put together again, are the expression
    without its white space: cutting into tokens drops and adds no other
    character.  Every token is non-empty and carries a sign at its head
    only. *)
Theorem tokens_keep_the_characters (s : string) :
  join (tokens s) = remove_spaces s /\ Forall token_ok (tokens s).
Proof.
  split; [|apply tokens_ok].
  unfold tokens. rewrite join_split.
  rewrite (remove_spaces_replace "-"), (remove_spaces_replace "+"); reflexivity.
Qed.

Lemma py_int_small (q : Q) : Qabs q < 1 -> py_int q = 0%Z.
Proof.
  destruct q as [n d]. unfold py_int, Qabs, Qlt. cbn [Qnum Qden].
  intros H. destruct (Z.le_gt_cases 0 n).
  - apply Z.quot_small. lia.
  - rewrite <- (Z.opp_involutive n), Z.quot_opp_l by lia.
    rewrite Z.quot_small; lia.
Qed.

Lemma py_int_zero (q : Q) : q == 0 -> py_int q = 0%Z.
Proof.
  intros H. apply py_int_small. rewrite H. reflexivity.
Qed.

Lemma append_last_differs (s : string) (c d : ascii) :
  c <> d -> s +:+ String c EmptyString <> String d EmptyString.
Proof.
  intros Hcd. destruct s as [|a [|b s]].
  - intros [= E]. now apply Hcd.
  - discriminate.
  - discriminate.
Qed.

Section ChargeProps.
Variable str_int : Z -> string.
Variable str_float : Q -> string.

(** Property X22.
    [Charge.__str__] always returns a string (the three-way test of the
    integral case is never fallen through): "0" exactly when the charge is
    less than 0.0001 in absolute value, a string that ends in "+" when the
    charge is at least 0.0001 and one that ends in "-" when it is at most
    -0.0001. *)
Theorem Charge_str_sign (q : Q) :
  returns (Charge_str str_int str_float q) /\
  (Charge_str str_int str_float q = Return "0"%string <-> Qabs q < 1 # 10000) /\
  (1 # 10000 <= q ->
   exists s, Charge_str str_int str_float q = Return (s +:+ "+")) /\
  (q <= - (1 # 10000) ->
   exists s, Charge_str str_int str_float q = Return (s +:+ "-")).
Proof.
  unfold Charge_str, returns.
  destruct (Qlt_bool (Qabs (q - inject_Z (py_int q))) (1 # 10000)) eqn:Eint.
  - apply Qlt_bool_iff in Eint.
    destruct (Z.eqb_spec (py_int q) 0) as [E0|Hn0].
    + rewrite E0 in Eint. change (inject_Z 0) with 0 in Eint.
      assert (Qabs q < 1 # 10000) as Hsmall.
      { apply Qabs_Qlt_condition. apply Qabs_Qlt_condition in Eint. lra. }
      split_and!; [eauto | tauto | |].
      * intros Hq. exfalso. apply Qabs_Qlt_condition in Hsmall. lra.
      * intros Hq. exfalso. apply Qabs_Qlt_condition in Hsmall. lra.
    + assert (~ Qabs q < 1 # 10000) as Hbig.
      { intros Hs. apply Hn0, py_int_small.
        apply Qabs_Qlt_condition. apply Qabs_Qlt_condition in Hs. lra. }
      destruct (Qlt_bool 0 q) eqn:Epos.
      * apply Qlt_bool_iff in Epos. split_and!; [eauto | | eauto |].
        -- split; [|tauto]. intros [= E]. exfalso. revert E.
           now apply append_last_differs.
        -- intros Hq. lra.
      * apply Qlt_bool_false in Epos. destruct (Qlt_bool q 0) eqn:Eneg.
        -- apply Qlt_bool_iff in Eneg. split_and!; [eauto | | | eauto].
           ++ split; [|tauto]. intros [= E]. exfalso. revert E.
              now apply append_last_differs.
           ++ intros Hq. lra.
        -- apply Qlt_bool_false in Eneg. exfalso. apply Hn0, py_int_zero. lra.
  - apply Qlt_bool_false in Eint.
    assert (~ Qabs q < 1 # 10000) as Hbig.
    { intros Hs. revert Eint. apply Qlt_not_le.
      rewrite py_int_small.
      - change (inject_Z 0) with 0. apply Qabs_Qlt_condition.
        apply Qabs_Qlt_condition in Hs. lra.
      - apply Qabs_Qlt_condition. apply Qabs_Qlt_condition in Hs. lra. }
    destruct (Qlt_bool 0 q) eqn:Epos.
    + apply Qlt_bool_iff in Epos. split_and!; [eauto | | eauto |].
      * split; [|tauto]. intros [= E]. exfalso. revert E.
        now apply append_last_differs.
      * intros Hq. lra.
    + apply Qlt_bool_false in Epos. split_and!; [eauto | | | eauto].
      * split; [|tauto]. intros [= E]. exfalso. revert E.
        now apply append_last_differs.
      * intros Hq. exfalso. apply Hbig. apply Qabs_Qlt_condition. lra.
Qed.
End ChargeProps.

Lemma Charge_str_sign_witness :
  (exists s, Charge_str (fun _ => "2"%string) (fun _ => "2.5"%string) 2
             = Return (s +:+ "+")) /\
  (exists s, Charge_str (fun _ => "2"%string) (fun _ => "2.5"%string) (- (5 # 2))
             = Return (s +:+ "-")).
Proof.
  split.
  - destruct (Charge_str_sign (fun _ => "2"%string) (fun _ => "2.5"%string) 2)
      as (_ & _ & Hp & _).
    apply Hp. discriminate.
  - destruct (Charge_str_sign (fun _ => "2"%string) (fun _ => "2.5"%string)
                (- (5 # 2))) as (_ & _ & _ & Hm).
    apply Hm. discriminate.
Defined.

(** ** Comparing matrices and operations *)

Lemma Forall2_33 (R : Q -> Q -> Prop)
    (x00 x01 x02 x10 x11 x12 x20 x21 x22 : Q)
    (y00 y01 y02 y10 y11 y12 y20 y21 y22 : Q) :
  Forall2 (Forall2 R) [[x00; x01; x02]; [x10; x11; x12]; [x20; x21; x22]]
                      [[y00; y01; y02]; [y10; y11; y12]; [y20; y21; y22]] <->
  (R x00 y00 /\ R x01 y01 /\ R x02 y02) /\
  (R x10 y10 /\ R x11 y11 /\ R x12 y12) /\
  (R x20 y20 /\ R x21 y21 /\ R x22 y22).
Proof.
  rewrite !Forall2_cons, !Forall2_nil. tauto.
Qed.

Lemma Forall2_3 (R : Q -> Q -> Prop) (x0 x1 x2 y0 y1 y2 : Q) :
  Forall2 R [x0; x1; x2] [y0; y1; y2] <-> R x0 y0 /\ R x1 y1 /\ R x2 y2.
Proof.
  rewrite !Forall2_cons, !Forall2_nil. tauto.
Qed.

Lemma getitem2_cases {A} (m : list (list A)) (i j : nat) :
  (exists x, getitem2 m i j = Return x) \/ getitem2 m i j = Raise IndexError.
Proof.
  unfold getitem2, getitem. destruct (m !! i) as [row|]; cbn; [|now right].
  destruct (row !! j); cbn; eauto.
Qed.

Lemma LatticeMatrix_eq_row_sym (m1 m2 : list (list Q)) (i : nat) (js : list nat) :
  LatticeMatrix_eq_row m1 m2 i js = LatticeMatrix_eq_row m2 m1 i js.
Proof.
  induction js as [|j js IH]; [reflexivity|]. cbn [LatticeMatrix_eq_row].
  destruct (getitem2_cases m1 i j) as [(x & ->)| ->],
           (getitem2_cases m2 i j) as [(y & ->)| ->];
    cbn [mbind outcome_bind]; try reflexivity.
  rewrite (Qlt_bool_comp compeps compeps (Qabs (x - y)) (Qabs (y - x)))
    by (reflexivity || apply Qabs_minus_swap).
  now rewrite IH.
Qed.

Lemma LatticeMatrix_eq_rows_sym (m1 m2 : list (list Q)) (ixs : list nat) :
  LatticeMatrix_eq_rows m1 m2 ixs = LatticeMatrix_eq_rows m2 m1 ixs.
Proof.
  induction ixs as [|i ixs IH]; [reflexivity|]. cbn [LatticeMatrix_eq_rows].
  now rewrite LatticeMatrix_eq_row_sym, IH.
Qed.

Ltac compare_entries :=
  repeat match goal with
  | H : Qlt_bool _ _ = true |- _ => apply Qlt_bool_iff in H
  | H : Qlt_bool _ _ = false |- _ => apply Qlt_bool_false in H
  | H : Qle_bool _ _ = true |- _ => apply Qle_bool_iff in H
  | H : Qle_bool _ _ = false |- _ => apply Qle_bool_false in H
  end.

Ltac clash :=
  match goal with
  | H1 : ?x < ?y, H2 : ?y <= ?x |- _ => exact (Qlt_not_le _ _ H1 H2)
  end.

Ltac matrix_entry a b :=
  destruct (Qlt_bool compeps (Qabs (a - b))) eqn:?;
  cbn -[Qlt_bool Qabs compeps Qminus];
  [split; [right; reflexivity|];
   split; [discriminate|]; intros ((? & ? & ?) & (? & ? & ?) & (? & ? & ?));
   exfalso; compare_entries; clash|].

Lemma LatticeMatrix_eq_33 (a00 a01 a02 a10 a11 a12 a20 a21 a22 : Q)
    (b00 b01 b02 b10 b11 b12 b20 b21 b22 : Q) :
  (LatticeMatrix_eq [[a00; a01; a02]; [a10; a11; a12]; [a20; a21; a22]]
                    [[b00; b01; b02]; [b10; b11; b12]; [b20; b21; b22]]
   = Return true \/
   LatticeMatrix_eq [[a00; a01; a02]; [a10; a11; a12]; [a20; a21; a22]]
                    [[b00; b01; b02]; [b10; b11; b12]; [b20; b21; b22]]
   = Return false) /\
  (LatticeMatrix_eq [[a00; a01; a02]; [a10; a11; a12]; [a20; a21; a22]]
                    [[b00; b01; b02]; [b10; b11; b12]; [b20; b21; b22]]
   = Return true <->
   Forall2 (Forall2 within)
     [[a00; a01; a02]; [a10; a11; a12]; [a20; a21; a22]]
     [[b00; b01; b02]; [b10; b11; b12]; [b20; b21; b22]]).
Proof.
  rewrite Forall2_33. unfold within.
  unfold LatticeMatrix_eq, LatticeMatrix_eq_rows, LatticeMatrix_eq_row, range3.
  cbn -[Qlt_bool Qabs compeps Qminus].
  matrix_entry a00 b00. matrix_entry a01 b01. matrix_entry a02 b02.
  matrix_entry a10 b10. matrix_entry a11 b11. matrix_entry a12 b12.
  matrix_entry a20 b20. matrix_entry a21 b21. matrix_entry a22 b22.
  compare_entries. split; [left; reflexivity|]. split; [|reflexivity]. intros _.
  split_and!; assumption.
Qed.

(** Property X23.
    [LatticeMatrix.__eq__] gives the same answer, or the same IndexError,
    whichever way round its operands are; on two 3x3 matrices it returns,
    and returns True exactly when every entry of the one is at most
    [compeps] away from that entry of the other. *)
Theorem LatticeMatrix_eq_tolerance (m1 m2 : list (list Q)) :
  LatticeMatrix_eq m1 m2 = LatticeMatrix_eq m2 m1 /\
  (shape33 m1 -> shape33 m2 ->
   returns (LatticeMatrix_eq m1 m2) /\
   (LatticeMatrix_eq m1 m2 = Return true <-> Forall2 (Forall2 within) m1 m2)).
Proof.
  split; [apply LatticeMatrix_eq_rows_sym|].
  intros (a00 & a01 & a02 & a10 & a11 & a12 & a20 & a21 & a22 & ->)
         (b00 & b01 & b02 & b10 & b11 & b12 & b20 & b21 & b22 & ->).
  destruct (LatticeMatrix_eq_33 a00 a01 a02 a10 a11 a12 a20 a21 a22
              b00 b01 b02 b10 b11 b12 b20 b21 b22) as [Hr Hiff].
  split; [|exact Hiff]. unfold returns. destruct Hr as [-> | ->]; eauto.
Qed.

Lemma LatticeMatrix_eq_tolerance_witness :
  returns (LatticeMatrix_eq identity3 [[1; 0; 0]; [0; 1; 2 # 10000]; [0; 0; 1]]) /\
  (LatticeMatrix_eq identity3 [[1; 0; 0]; [0; 1; 2 # 10000]; [0; 0; 1]] = Return true <->
   Forall2 (Forall2 within) identity3 [[1; 0; 0]; [0; 1; 2 # 10000]; [0; 0; 1]]).
Proof.
  destruct (LatticeMatrix_eq_tolerance identity3
              [[1; 0; 0]; [0; 1; 2 # 10000]; [0; 0; 1]]) as [_ H].
  apply H; unfold shape33, identity3; eauto 12.
Defined.

Ltac keep := cbn -[Qlt_bool Qabs Qeq_bool compeps Qpower Qminus sq_length].

Ltac answers_false :=
  split; [right; reflexivity|]; split; [discriminate|].

Ltac answers_true :=
  split; [left; reflexivity|]; split; [intros _|reflexivity].

Ltac rotation_entry a b :=
  destruct (Qlt_bool (Qabs (a - b)) compeps) eqn:?; keep;
  [|answers_false;
    intros (((? & ? & ?) & (? & ? & ?) & (? & ? & ?)) & (? & ? & ?));
    exfalso; compare_entries; clash].

Ltac translation_entry a b :=
  destruct (Qlt_bool compeps (Qabs (a - b))) eqn:?; keep;
  [answers_false;
   intros (((? & ? & ?) & (? & ? & ?) & (? & ? & ?)) & (? & ? & ?));
   exfalso; compare_entries; clash|].

Ltac small_self a :=
  destruct (Qlt_bool (Qabs a) compeps) eqn:?; keep;
  [|answers_false;
    intros [?|(_ & (? & ? & ? & ? & ? & ?) & _)];
    exfalso; compare_entries; [lra | clash]].

Ltac small_other b :=
  destruct (Qlt_bool (Qabs b) compeps) eqn:?; keep;
  [|answers_true; right; compare_entries;
    split; [assumption|]; split; [split_and!; assumption|];
    left; intros (? & ? & ? & ? & ? & ?); clash].

Section Operations.
Variables (eqs1 eqs2 : list string) (ival1 ival2 : list Q).
Variables (a00 a01 a02 a10 a11 a12 a20 a21 a22 : Q).
Variables (b00 b01 b02 b10 b11 b12 b20 b21 b22 : Q).
Variables (s0 s1 s2 t0 t1 t2 : Q).

Local Abbreviation A := [[a00; a01; a02]; [a10; a11; a12]; [a20; a21; a22]].
Local Abbreviation B := [[b00; b01; b02]; [b10; b11; b12]; [b20; b21; b22]].
Local Abbreviation o1 :=
  (mkSymmetryOperation eqs1 A (mkLatticeVector [s0; s1; s2] ival1)).
Local Abbreviation o2 :=
  (mkSymmetryOperation eqs2 B (mkLatticeVector [t0; t1; t2] ival2)).

Lemma SymmetryOperation_eq_cases :
  (SymmetryOperation_eq o1 o2 = Return true \/
   SymmetryOperation_eq o1 o2 = Return false) /\
  (SymmetryOperation_eq o1 o2 = Return true <->
   Forall2 (Forall2 strictly_within) A B /\
   Forall2 within [s0; s1; s2] [t0; t1; t2]).
Proof.
  rewrite Forall2_33, Forall2_3. unfold within, strictly_within.
  unfold SymmetryOperation_eq, SymmetryOperation_eq_rows, SymmetryOperation_eq_row,
    Vector_eq, Vector_eq_from, and_then, range3.
  keep.
  rotation_entry a00 b00. rotation_entry a01 b01. rotation_entry a02 b02.
  translation_entry s0 t0. translation_entry s1 t1. translation_entry s2 t2.
  rotation_entry a10 b10. rotation_entry a11 b11. rotation_entry a12 b12.
  rotation_entry a20 b20. rotation_entry a21 b21. rotation_entry a22 b22.
  compare_entries. answers_true. split_and!; assumption.
Qed.

Lemma SymmetryOperation_lt_cases :
  (SymmetryOperation_lt o1 o2 = Return true \/
   SymmetryOperation_lt o1 o2 = Return false) /\
  (SymmetryOperation_lt o1 o2 = Return true <->
   sq_length s0 s1 s2 < sq_length t0 t1 t2 \/
   (sq_length s0 s1 s2 == sq_length t0 t1 t2 /\ is_diagonal A /\
    (~ is_diagonal B \/ has_unit_diagonal A))).
Proof.
  unfold is_diagonal, has_unit_diagonal, entry.
  cbn [lookup list_lookup mbind option_bind default].
  unfold SymmetryOperation_lt, Vector_lt, sqnorm, diagonal, unit_diagonal,
    small_entry, and_then.
  keep. fold (sq_length s0 s1 s2). fold (sq_length t0 t1 t2).
  generalize (sq_length s0 s1 s2) (sq_length t0 t1 t2). intros n1 n2.
  destruct (Qlt_bool n1 n2) eqn:E1; keep.
  { compare_entries. answers_true. now left. }
  destruct (Qlt_bool n2 n1) eqn:E2; keep.
  { compare_entries. answers_false. intros [?|(? & _)]; exfalso; lra. }
  compare_entries. assert (n1 == n2) as En by lra.
  small_self a01. small_self a02. small_self a10.
  small_self a12. small_self a20. small_self a21.
  small_other b01. small_other b02. small_other b10.
  small_other b12. small_other b20. small_other b21.
  compare_entries.
  destruct (Qeq_bool a00 a11) eqn:U1; keep.
  2:{ apply Qeq_bool_false in U1. answers_false.
      intros [?|(_ & _ & [Hd|(H1 & H2 & H3)])]; exfalso;
        [lra | apply Hd; split_and!; assumption | apply U1; now rewrite H1, H2]. }
  destruct (Qeq_bool a11 a22) eqn:U2; keep.
  2:{ apply Qeq_bool_false in U2. answers_false.
      intros [?|(_ & _ & [Hd|(H1 & H2 & H3)])]; exfalso;
        [lra | apply Hd; split_and!; assumption | apply U2; now rewrite H2, H3]. }
  destruct (Qeq_bool a22 1) eqn:U3; keep.
  2:{ apply Qeq_bool_false in U3. answers_false.
      intros [?|(_ & _ & [Hd|(H1 & H2 & H3)])]; exfalso;
        [lra | apply Hd; split_and!; assumption | apply U3; exact H3]. }
  apply Qeq_bool_iff in U1, U2, U3. answers_true. right.
  split; [exact En|]. split; [split_and!; assumption|]. right.
  split_and!; [now rewrite U1, U2 | now rewrite U2 | exact U3].
Qed.
End Operations.

Lemma well_formed_inv (o : SymmetryOperation) :
  well_formed o ->
  exists eqs ival a00 a01 a02 a10 a11 a12 a20 a21 a22 s0 s1 s2,
    o = mkSymmetryOperation eqs
          [[a00; a01; a02]; [a10; a11; a12]; [a20; a21; a22]]
          (mkLatticeVector [s0; s1; s2] ival).
Proof.
  destruct o as [eqs rot [v ival]]. unfold well_formed. cbn [rotation translation coords].
  intros [(a00 & a01 & a02 & a10 & a11 & a12 & a20 & a21 & a22 & ->) Hv].
  apply length3_inv in Hv as (s0 & s1 & s2 & ->). eauto 20.
Qed.

(** Property X24.
    [SymmetryOperation.__eq__] on two operations with 3x3 rotations and
    translations of three components returns, and returns True exactly when
    every entry of the rotations differs by less than [compeps] and every
    component of the translations by at most [compeps]. *)
Theorem SymmetryOperation_eq_tolerance (o1 o2 : SymmetryOperation) :
  well_formed o1 -> well_formed o2 ->
  returns (SymmetryOperation_eq o1 o2) /\
  (SymmetryOperation_eq o1 o2 = Return true <->
   Forall2 (Forall2 strictly_within) (rotation o1) (rotation o2) /\
   Forall2 within (coords (translation o1)) (coords (translation o2))).
Proof.
  intros H1 H2.
  apply well_formed_inv in H1
    as (eqs1 & ival1 & a00 & a01 & a02 & a10 & a11 & a12 & a20 & a21 & a22
        & s0 & s1 & s2 & ->).
  apply well_formed_inv in H2
    as (eqs2 & ival2 & b00 & b01 & b02 & b10 & b11 & b12 & b20 & b21 & b22
        & t0 & t1 & t2 & ->).
  destruct (SymmetryOperation_eq_cases eqs1 eqs2 ival1 ival2
              a00 a01 a02 a10 a11 a12 a20 a21 a22
              b00 b01 b02 b10 b11 b12 b20 b21 b22 s0 s1 s2 t0 t1 t2) as [Hr Hiff].
  split; [|exact Hiff]. unfold returns. destruct Hr as [-> | ->]; eauto.
Qed.

Lemma SymmetryOperation_eq_tolerance_witness :
  returns (SymmetryOperation_eq identity_op mirror_op) /\
  (SymmetryOperation_eq identity_op mirror_op = Return true <->
   Forall2 (Forall2 strictly_within) (rotation identity_op) (rotation mirror_op) /\
   Forall2 within (coords (translation identity_op)) (coords (translation mirror_op))).
Proof.
  apply (SymmetryOperation_eq_tolerance identity_op mirror_op);
    (split; [unfold shape33; cbn; eauto 12 | reflexivity]).
Defined.

(** Property X25.
    [SymmetryOperation.__lt__] on two operations with 3x3 rotations and
    translations of three components returns.  It returns True when the
    translation of the first compares less than that of the second (by
    [Vector.__lt__]) and False when the translation of the second compares
    less than that of the first; when neither does, it returns True exactly
    when the first rotation is diagonal, and the second rotation is not
    diagonal or the first has the diagonal of the identity. *)
Theorem SymmetryOperation_lt_ties (o1 o2 : SymmetryOperation) :
  well_formed o1 -> well_formed o2 ->
  returns (SymmetryOperation_lt o1 o2) /\
  (Vector_lt (coords (translation o1)) (coords (translation o2)) = Return true ->
   SymmetryOperation_lt o1 o2 = Return true) /\
  (Vector_lt (coords (translation o1)) (coords (translation o2)) = Return false ->
   Vector_lt (coords (translation o2)) (coords (translation o1)) = Return true ->
   SymmetryOperation_lt o1 o2 = Return false) /\
  (Vector_lt (coords (translation o1)) (coords (translation o2)) = Return false ->
   Vector_lt (coords (translation o2)) (coords (translation o1)) = Return false ->
   (SymmetryOperation_lt o1 o2 = Return true <->
    is_diagonal (rotation o1) /\
    (~ is_diagonal (rotation o2) \/ has_unit_diagonal (rotation o1)))).
Proof.
  intros H1 H2.
  apply well_formed_inv in H1
    as (eqs1 & ival1 & a00 & a01 & a02 & a10 & a11 & a12 & a20 & a21 & a22
        & s0 & s1 & s2 & ->).
  apply well_formed_inv in H2
    as (eqs2 & ival2 & b00 & b01 & b02 & b10 & b11 & b12 & b20 & b21 & b22
        & t0 & t1 & t2 & ->).
  destruct (SymmetryOperation_lt_cases eqs1 eqs2 ival1 ival2
              a00 a01 a02 a10 a11 a12 a20 a21 a22
              b00 b01 b02 b10 b11 b12 b20 b21 b22 s0 s1 s2 t0 t1 t2) as [Hr Hiff].
  cbn [translation rotation coords] in *.
  change (Vector_lt [s0; s1; s2] [t0; t1; t2])
    with (Return (A := bool) (Qlt_bool (sq_length s0 s1 s2) (sq_length t0 t1 t2))).
  change (Vector_lt [t0; t1; t2] [s0; s1; s2])
    with (Return (A := bool) (Qlt_bool (sq_length t0 t1 t2) (sq_length s0 s1 s2))).
  revert Hr Hiff. generalize (sq_length s0 s1 s2) (sq_length t0 t1 t2).
  intros n1 n2 Hr Hiff. split_and!.
  - unfold returns. destruct Hr as [-> | ->]; eauto.
  - intros [= E]. apply Qlt_bool_iff in E. apply Hiff. now left.
  - intros [= E1] [= E2]. apply Qlt_bool_false in E1. apply Qlt_bool_iff in E2.
    destruct Hr as [Hr|Hr]; [|exact Hr]. exfalso.
    apply Hiff in Hr as [Hlt|(Heq & _)]; lra.
  - intros [= E1] [= E2]. apply Qlt_bool_false in E1, E2.
    rewrite Hiff. split.
    + intros [Hlt|(_ & Hd)]; [exfalso; lra | exact Hd].
    + intros Hd. right. split; [lra | exact Hd].
Qed.

Lemma SymmetryOperation_lt_ties_witness :
  returns (SymmetryOperation_lt mirror_op identity_op) /\
  (SymmetryOperation_lt mirror_op identity_op = Return true <->
   is_diagonal (rotation mirror_op) /\
   (~ is_diagonal (rotation identity_op) \/ has_unit_diagonal (rotation mirror_op))).
Proof.
  destruct (SymmetryOperation_lt_ties mirror_op identity_op) as (Hr & _ & _ & Hiff).
  - split; [unfold shape33; cbn; eauto 12 | reflexivity].
  - split; [unfold shape33; cbn; eauto 12 | reflexivity].
  - split; [exact Hr | apply Hiff; reflexivity].
Defined.

(** Property X26.
    [SymmetryOperation.__lt__] is not irreflexive: an operation is less
    than itself exactly when its rotation is diagonal with the diagonal of
    the identity, whatever its translation. *)
Theorem SymmetryOperation_lt_itself (o : SymmetryOperation) :
  well_formed o ->
  (SymmetryOperation_lt o o = Return true <->
   is_diagonal (rotation o) /\ has_unit_diagonal (rotation o)) /\
  (SymmetryOperation_lt o o = Return false <->
   ~ (is_diagonal (rotation o) /\ has_unit_diagonal (rotation o))).
Proof.
  intros H.
  apply well_formed_inv in H
    as (eqs & ival & a00 & a01 & a02 & a10 & a11 & a12 & a20 & a21 & a22
        & s0 & s1 & s2 & ->).
  destruct (SymmetryOperation_lt_cases eqs eqs ival ival
              a00 a01 a02 a10 a11 a12 a20 a21 a22
              a00 a01 a02 a10 a11 a12 a20 a21 a22 s0 s1 s2 s0 s1 s2) as [Hr Hiff].
  assert (SymmetryOperation_lt
            (mkSymmetryOperation eqs
               [[a00; a01; a02]; [a10; a11; a12]; [a20; a21; a22]]
               (mkLatticeVector [s0; s1; s2] ival))
            (mkSymmetryOperation eqs
               [[a00; a01; a02]; [a10; a11; a12]; [a20; a21; a22]]
               (mkLatticeVector [s0; s1; s2] ival)) = Return true <->
          is_diagonal [[a00; a01; a02]; [a10; a11; a12]; [a20; a21; a22]] /\
          has_unit_diagonal [[a00; a01; a02]; [a10; a11; a12]; [a20; a21; a22]])
    as Htrue.
  { rewrite Hiff. cbn [rotation]. split.
    - intros [Hlt|(_ & Hd & [Hn|Hu])].
      + exfalso. revert Hlt. apply Qlt_irrefl.
      + now destruct Hn.
      + now split.
    - intros [Hd Hu]. right. split; [reflexivity|]. split; [exact Hd|]. now right. }
  split; [exact Htrue|].
  cbn [rotation] in *. rewrite <- Htrue.
  destruct Hr as [-> | ->]; split; congruence.
Qed.

Lemma SymmetryOperation_lt_itself_witness :
  (SymmetryOperation_lt identity_op identity_op = Return true <->
   is_diagonal (rotation identity_op) /\ has_unit_diagonal (rotation identity_op)) /\
  (SymmetryOperation_lt identity_op identity_op = Return false <->
   ~ (is_diagonal (rotation identity_op) /\ has_unit_diagonal (rotation identity_op))).
Proof.
  apply (SymmetryOperation_lt_itself identity_op).
  split; [unfold shape33; cbn; eauto 12 | reflexivity].
Defined.

(** ** What the constructor of an operation builds *)

Lemma signed_unit_33 (a b c d e f g h i : Q) :
  signed_unit_matrix [[a; b; c]; [d; e; f]; [g; h; i]] <->
  (signed_unit a /\ signed_unit b /\ signed_unit c) /\
  (signed_unit d /\ signed_unit e /\ signed_unit f) /\
  (signed_unit g /\ signed_unit h /\ signed_unit i).
Proof.
  unfold signed_unit_matrix. rewrite !Forall_cons, !Forall_nil.
  split; [tauto|]. intros H. split; [unfold shape33; eauto 12 | tauto].
Qed.

Lemma setitem2_signed (mat : list (list Q)) (i j : nat) (v : Q) :
  signed_unit_matrix mat -> (i < 3)%nat -> (j < 3)%nat -> signed_unit v ->
  exists mat', setitem2 mat i j v = Return mat' /\ signed_unit_matrix mat'.
Proof.
  intros [(a & b & c & d & e & f & g & h & k & ->) Hm] Hi Hj Hv.
  assert (signed_unit_matrix [[a; b; c]; [d; e; f]; [g; h; k]]) as H
    by (split; [unfold shape33; eauto 12 | exact Hm]).
  apply signed_unit_33 in H.
  destruct i as [|[|[|i]]]; try lia; destruct j as [|[|[|j]]]; try lia;
    (eexists; split; [reflexivity|]); apply signed_unit_33; tauto.
Qed.

Ltac signed_float :=
  eval_float; apply setitem2_signed;
  first [assumption | lia
        | left; reflexivity | right; left; reflexivity | right; right; reflexivity].

Lemma rotmat_token_signed (j : nat) (tok : string) (mat : list (list Q)) :
  token_ok tok -> (j < 3)%nat -> signed_unit_matrix mat ->
  exists mat', rotmat_token j tok mat = Return mat' /\ signed_unit_matrix mat'.
Proof.
  intros Htok Hj Hmat. unfold rotmat_token.
  destruct (String.eqb_spec (strip "+-" tok) "x") as [Ex|_].
  { apply (strip_signs_letter _ _ Htok) in Ex as [->|[->| ->]]; signed_float. }
  destruct (String.eqb_spec (strip "+-" tok) "y") as [Ey|_].
  { apply (strip_signs_letter _ _ Htok) in Ey as [->|[->| ->]]; signed_float. }
  destruct (String.eqb_spec (strip "+-" tok) "z") as [Ez|_].
  { apply (strip_signs_letter _ _ Htok) in Ez as [->|[->| ->]]; signed_float. }
  eauto.
Qed.

Lemma rotmat_tokens_signed (j : nat) (xyz : list string) (mat : list (list Q)) :
  Forall token_ok xyz -> (j < 3)%nat -> signed_unit_matrix mat ->
  exists mat', rotmat_tokens j xyz mat = Return mat' /\ signed_unit_matrix mat'.
Proof.
  intros Hxyz Hj. revert mat. induction Hxyz as [|tok xyz Htok _ IH]; intros mat Hmat.
  - cbn. eauto.
  - cbn [rotmat_tokens].
    destruct (rotmat_token_signed j tok mat Htok Hj Hmat) as (mat1 & -> & Hmat1).
    cbn [mbind outcome_bind]. now apply IH.
Qed.

Lemma rotmat_entries_signed (entries : list string) :
  forall (j : nat) (mat : list (list Q)),
    (j + length entries <= 3)%nat -> signed_unit_matrix mat ->
    exists mat', rotmat_entries j entries mat = Return mat' /\ signed_unit_matrix mat'.
Proof.
  induction entries as [|e entries IH]; intros j mat Hlen Hmat.
  - cbn. eauto.
  - cbn [length] in Hlen. cbn [rotmat_entries].
    destruct (rotmat_tokens_signed j (tokens e) mat (tokens_ok e))
      as (mat1 & -> & Hmat1); [lia | assumption |].
    cbn [mbind outcome_bind]. apply IH; [lia | assumption].
Qed.

(** Property X27.
    [rotmat] on an expression of at most three entries returns a 3x3
    matrix whose entries are all 0, 1 or -1, whatever the entries of the
    expression are: it never fails. *)
Theorem rotmat_signed_unit (eqsite : list string) :
  (length eqsite <= 3)%nat ->
  exists rot, rotmat eqsite = Return rot /\ signed_unit_matrix rot.
Proof.
  intros Hlen. unfold rotmat.
  destruct (rotmat_entries_signed eqsite 0 [[0; 0; 0]; [0; 0; 0]; [0; 0; 0]])
    as (mat & -> & Hmat); [lia | | ].
  { apply signed_unit_33. unfold signed_unit. tauto. }
  destruct Hmat as [(a & b & c & d & e & f & g & h & k & ->) Hm].
  eexists. split; [reflexivity|]. split; [unfold shape33; eauto 12 | exact Hm].
Qed.

Lemma rotmat_signed_unit_witness :
  exists rot, rotmat ["-y"; "x-y"; "z+1/2"]%string = Return rot /\
              signed_unit_matrix rot.
Proof. apply (rotmat_signed_unit ["-y"; "x-y"; "z+1/2"]%string). cbn. lia. Defined.

Lemma improveprecision_snapped (x : Q) :
  unit_half_open x ->
  improveprecision x compeps == 1 \/
  (0 <= improveprecision x compeps /\ improveprecision x compeps < 1 - compeps).
Proof.
  intros [H0 H1]. unfold improveprecision, floatlist, improveprecision_in.
  unfold third, half, fourth, sixth, one, two, four, six, zero, sqrt2, compeps.
  change (2 * (1 / 3)) with (2 # 3). change (5 * (1 / 6)) with (5 # 6).
  change (1 / 3) with (1 # 3). change (1 / 2) with (1 # 2).
  change (1 / 4) with (1 # 4). change (1 / 6) with (1 # 6).
  repeat match goal with
  | |- context [Qle_bool (Qabs ?d) ?e] =>
      let E := fresh "E" in
      destruct (Qle_bool (Qabs d) e) eqn:E;
      [apply Qle_bool_iff, Qabs_Qle_condition in E;
       first [left; reflexivity | right; split; [discriminate | reflexivity]
             | exfalso; lra]|]
  end.
  right. split; [exact H0|].
  match goal with H : Qle_bool (Qabs (x - 1)) _ = false |- _ =>
    apply Qle_bool_false in H; revert H end.
  intros H. destruct (Qlt_le_dec x (1 - (2 # 10000))) as [Hlt|Hge]; [exact Hlt|].
  exfalso. revert H. apply Qle_not_lt, Qabs_Qle_condition. split; lra.
Qed.

Lemma improveprecision_below (x : Q) :
  0 <= x -> x < 1 - compeps -> unit_half_open (improveprecision x compeps).
Proof.
  intros H0 H1. unfold improveprecision, floatlist, improveprecision_in.
  unfold unit_half_open, third, half, fourth, sixth, one, two, four, six, zero,
    sqrt2, compeps in *.
  change (2 * (1 / 3)) with (2 # 3). change (5 * (1 / 6)) with (5 # 6).
  change (1 / 3) with (1 # 3). change (1 / 2) with (1 # 2).
  change (1 / 4) with (1 # 4). change (1 / 6) with (1 # 6).
  repeat match goal with
  | |- context [Qle_bool (Qabs ?d) ?e] =>
      let E := fresh "E" in
      destruct (Qle_bool (Qabs d) e) eqn:E;
      [apply Qle_bool_iff, Qabs_Qle_condition in E;
       first [split; [discriminate | reflexivity] | exfalso; lra]|]
  end.
  split; lra.
Qed.

Lemma fold_snapped (r y : Q) :
  r == 1 \/ (0 <= r /\ r < 1 - compeps) -> folded r y ->
  0 <= y /\ y < 1 - compeps.
Proof.
  intros Hr (H0 & H1 & E). destruct Hr as [Hr|[Hr0 Hr1]].
  - rewrite (Qfloor_comp _ _ Hr), Hr in E. change (1 - inject_Z (Qfloor 1)) with 0 in E.
    rewrite E. split; [discriminate | reflexivity].
  - assert (Qfloor r = 0%Z) as Hf.
    { apply Qfloor_unique; [change (0 <= r) | change (r < 1)];
        unfold compeps in *; lra. }
    rewrite Hf in E. change (inject_Z 0) with 0 in E. lra.
Qed.

Lemma init_twice_in_cell (fuel : nat) (x y z : Q) :
  (fuel_bound [x; y; z] <= fuel)%nat ->
  exists t t',
    LatticeVector_init fuel [x; y; z] = Return t /\
    LatticeVector_init fuel (coords t) = Return t' /\
    in_cell t' /\ interval t' = default_interval.
Proof.
  intros Hb. apply fuel_bound_3 in Hb as (Hx & Hy & Hz & H2).
  destruct (LatticeVector_init_3 fuel x y z Hx Hy Hz)
    as (x' & y' & z' & Fx & Fy & Fz & E).
  pose proof (steps_unit_closed _ (improveprecision_unit _ (folded_unit _ _ Fx))).
  pose proof (steps_unit_closed _ (improveprecision_unit _ (folded_unit _ _ Fy))).
  pose proof (steps_unit_closed _ (improveprecision_unit _ (folded_unit _ _ Fz))).
  destruct (LatticeVector_init_3 fuel (improveprecision x' compeps)
              (improveprecision y' compeps) (improveprecision z' compeps))
    as (x2 & y2 & z2 & Gx & Gy & Gz & E2); try lia.
  eexists _, _. split; [exact E|]. split; [exact E2|]. split; [|reflexivity].
  apply in_cell_triple. cbn [interval].
  apply (fold_snapped _ _ (improveprecision_snapped _ (folded_unit _ _ Fx))) in Gx.
  apply (fold_snapped _ _ (improveprecision_snapped _ (folded_unit _ _ Fy))) in Gy.
  apply (fold_snapped _ _ (improveprecision_snapped _ (folded_unit _ _ Fz))) in Gz.
  split_and!; apply in_interval_default, improveprecision_below; tauto.
Qed.

(** Property X28.
    The translation of a constructed operation lies in the cell.  When
    every evaluation returns, without effect on the objects of the method,
    and leaves real numbers of size below 2^53 in the vector, the
    constructor returns an operation whose translation has the interval
    [0,1) and three components in it: building the vector twice folds back
    a component that the first snapping brought to 1. *)
Theorem SymmetryOperation_init_translation_in_cell
    (ev : string -> outcome value) (eqsite : list string) :
  (length eqsite <= 3)%nat ->
  eval_in_order ev (evaluated_tokens eqsite) = Return tt ->
  Forall real_number (stored ev eqsite) ->
  forall fuel : nat, (fuel_for (stored ev eqsite) <= fuel)%nat ->
    exists o, SymmetryOperation_init (lift ev) fuel eqsite = Return o /\
              in_cell (translation o) /\
              interval (translation o) = default_interval.
Proof.
  intros Hlen He Hnum fuel Hfuel.
  destruct (rotmat_ok eqsite Hlen) as (rot & Hrot & _).
  pose proof (transvec_entries_stored ev eqsite Hlen) as Hvec.
  rewrite He in Hvec. cbn [follows] in Hvec.
  destruct (length3_inv _ (stored_length ev eqsite)) as (u & v & w & Hst).
  rewrite Hst in *.
  apply real_numbers_3 in Hnum as (a & b & c & [= -> -> ->]).
  destruct (init_twice_in_cell fuel a b c Hfuel) as (t & t' & Ht & Ht' & Hc & Hi).
  exists (mkSymmetryOperation eqsite rot t'). split; [|split; assumption].
  unfold SymmetryOperation_init, transvec. rewrite Hrot, Hvec.
  cbn [mbind outcome_bind]. rewrite LatticeVector_init_values_numbers, Ht.
  cbn [mbind outcome_bind]. rewrite Ht'. reflexivity.
Qed.

Lemma SymmetryOperation_init_translation_in_cell_witness :
  exists o,
    SymmetryOperation_init (lift eval_literal) 3
      ["x+0.9999"; "y-1/2"; "z"]%string = Return o /\
    in_cell (translation o) /\ interval (translation o) = default_interval.
Proof.
  apply (SymmetryOperation_init_translation_in_cell eval_literal
           ["x+0.9999"; "y-1/2"; "z"]%string); [cbn; lia | reflexivity | |].
  - change (stored eval_literal ["x+0.9999"; "y-1/2"; "z"]%string)
      with [Num (1 * (inject_Z 0 + inject_Z 9999 / inject_Z (10 ^ 4)));
            Num (- (1) * 1 / 2); Num 0].
    repeat constructor; eexists; (split; [reflexivity|]); reflexivity.
  - apply Nat.leb_le. reflexivity.
Defined.
